(** * rapidval: field validation rules, the Validator and the Translator

    A shallow embedding of the Go package [rapidval] (rules and Validator of
    the package file, Translator of translator.go) together with the
    properties its specification states about it.

    Conventions of the embedding
    - a Go [string] is a sequence of bytes: Stdlib's [string] (one [ascii]
      per byte), so Go's [len(s)] is [String.length s];
    - a Go [int] is a [Z]; the rules only compare ints, no arithmetic is
      performed on them, so no wrap-around can be observed;
    - a [*ValidationError] that may be nil is an [option ValidationError];
    - [map[string]interface{}] and [map[string]string] are [gmap string _];
    - an [interface{}] value is a [value], a sum over the dynamic types the
      package, its tests and the properties below talk about. *)

From Stdlib Require Import ZArith String Ascii List Lia DecimalString.
From stdpp Require Import gmap strings list fin_maps.

Open Scope string_scope.
Open Scope Z_scope.
Open Scope list_scope.

(** ** time.Time, as far as the rules use it *)

Module time.

(** An instant on the wall clock (seconds and nanoseconds counted from
    January 1, year 1, 00:00:00 UTC) and, for values obtained from
    [time.Now], a reading of the monotonic clock.  The location pointer of
    the Go struct plays no part in [Before], [After] and [IsZero] and is
    left out. *)
Record Time : Type := mkTime {
  sec : Z;
  nsec : Z;
  mono : option Z
}.

(** [Time{}] *)
Definition zero : Time := mkTime 0 0 None.

(** [t.Before(u)]: the monotonic readings decide when both values carry
    one, the wall clock instants otherwise. *)
Definition Before (t u : Time) : bool :=
  match mono t, mono u with
  | Some mt, Some mu => mt <? mu
  | _, _ => (sec t <? sec u) || ((sec t =? sec u) && (nsec t <? nsec u))
  end.

(** [t.After(u)] *)
Definition After (t u : Time) : bool :=
  match mono t, mono u with
  | Some mt, Some mu => mt >? mu
  | _, _ => (sec t >? sec u) || ((sec t =? sec u) && (nsec t >? nsec u))
  end.

(** [t.IsZero()] *)
Definition IsZero (t : Time) : bool := (sec t =? 0) && (nsec t =? 0).

End time.

(** ** Values of type interface{} *)

(** The dynamic types that reach the package through [interface{}]: the five
    kinds [isZero] switches on, and a few it does not know ([int64],
    [[]string] as in the package's own test of an unsupported type, where
    [None] is the nil slice, and a channel). *)
Inductive value : Type :=
| VNil
| VString (s : string)
| VInt (n : Z)
| VBool (b : bool)
| VTime (t : time.Time)
| VInt64 (n : Z)
| VStrings (l : option (list string))
| VChan (id : nat).

(** ** Validation errors *)

Record ValidationError : Type := {
  Field : string;
  MessageKey : string;
  MessageParams : gmap string value;
  CurrentValue : value
}.

(** The [Error] method of [ValidationError] (pointer receiver). *)
Definition ValidationError_Error (ve : ValidationError) : string := MessageKey ve.

(** [type ValidationErrors []*ValidationError] *)
Definition ValidationErrors : Type := list ValidationError.

(** [ValidationErrors.Error]: [strings.Join(errors, "; ")] *)
Definition ValidationErrors_Error (ve : ValidationErrors) : string :=
  String.concat "; " (map ValidationError_Error ve).

(** [type P []*ValidationError]; an entry may be the nil pointer. *)
Definition P : Type := list (option ValidationError).

(** Message keys *)
Definition MsgRequired : string := "validation.required".
Definition MsgInvalidEmail : string := "validation.email".
Definition MsgMinLength : string := "validation.min_length".
Definition MsgMaxLength : string := "validation.max_length".
Definition MsgBetween : string := "validation.between".
Definition MsgDateGreaterThan : string := "validation.date_greater_than".
Definition MsgDateLessThan : string := "validation.date_less_than".

(** MessageParam keys.  The Go constants are [Field], [Min], [Max] and
    [Value]; they live in a module of their own here because [Field] is also
    the record projection above. *)
Module MessageParam.
Definition Field : string := "Field".
Definition Min : string := "Min".
Definition Max : string := "Max".
Definition Value : string := "Value".
End MessageParam.

(** ** Rules *)

(** [isZero]: a type switch with five cases; every other dynamic type falls
    out of the switch and is reported as not zero. *)
Definition isZero (v : value) : bool :=
  match v with
  | VString s => String.eqb s ""
  | VInt n => n =? 0
  | VBool b => negb b
  | VTime t => time.IsZero t
  | VNil => true
  | _ => false
  end.

Definition Required (field : string) (v : value) : option ValidationError :=
  if isZero v then
    Some {| Field := field;
            MessageKey := MsgRequired;
            MessageParams := <[MessageParam.Field := VString field]>
                             (<[MessageParam.Value := v]> ∅);
            CurrentValue := v |}
  else None.

(** [strings.Contains(s, c)] for a one-byte substring. *)
Fixpoint Contains (s : string) (c : ascii) : bool :=
  match s with
  | EmptyString => false
  | String x s' => Ascii.eqb x c || Contains s' c
  end.

Definition Email (field : string) (v : string) : option ValidationError :=
  if negb (Contains v "@") || negb (Contains v ".") then
    Some {| Field := field;
            MessageKey := MsgInvalidEmail;
            MessageParams := <[MessageParam.Field := VString field]>
                             (<[MessageParam.Value := VString v]> ∅);
            CurrentValue := VString v |}
  else None.

(** Go's [len] on a string: its number of bytes, as an [int]. *)
Definition len (s : string) : Z := Z.of_nat (String.length s).

Definition MinLength (field : string) (v : string) (min : Z) : option ValidationError :=
  if len v <? min then
    Some {| Field := field;
            MessageKey := MsgMinLength;
            MessageParams := <[MessageParam.Field := VString field]>
                             (<[MessageParam.Min := VInt min]>
                             (<[MessageParam.Value := VString v]> ∅));
            CurrentValue := VString v |}
  else None.

Definition MaxLength (field : string) (v : string) (max : Z) : option ValidationError :=
  if len v >? max then
    Some {| Field := field;
            MessageKey := MsgMaxLength;
            MessageParams := <[MessageParam.Field := VString field]>
                             (<[MessageParam.Max := VInt max]>
                             (<[MessageParam.Value := VString v]> ∅));
            CurrentValue := VString v |}
  else None.

Definition Between (field : string) (v min max : Z) : option ValidationError :=
  if (v <? min) || (v >? max) then
    Some {| Field := field;
            MessageKey := MsgBetween;
            MessageParams := <[MessageParam.Field := VString field]>
                             (<[MessageParam.Min := VInt min]>
                             (<[MessageParam.Max := VInt max]>
                             (<[MessageParam.Value := VInt v]> ∅)));
            CurrentValue := VInt v |}
  else None.

Definition DateGreaterThan (field : string) (v min : time.Time) : option ValidationError :=
  if time.Before v min then
    Some {| Field := field;
            MessageKey := MsgDateGreaterThan;
            MessageParams := <[MessageParam.Field := VString field]>
                             (<[MessageParam.Min := VTime min]>
                             (<[MessageParam.Value := VTime v]> ∅));
            CurrentValue := VTime v |}
  else None.

Definition DateLessThan (field : string) (v max : time.Time) : option ValidationError :=
  if time.After v max then
    Some {| Field := field;
            MessageKey := MsgDateLessThan;
            MessageParams := <[MessageParam.Field := VString field]>
                             (<[MessageParam.Max := VTime max]>
                             (<[MessageParam.Value := VTime v]> ∅));
            CurrentValue := VTime v |}
  else None.

(** ** The Validator *)

(** [type Validateable interface { Validations() P }] *)
Class Validateable (A : Type) : Type := Validations : A -> P.

Record Validator : Type := { errors : ValidationErrors }.

(** [New] *)
Definition New : Validator := {| errors := [] |}.

(** The body of the [for _, err := range params] loop. *)
Definition collect (v : Validator) (err : option ValidationError) : Validator :=
  match err with
  | Some e =>
      if negb (String.eqb (MessageKey e) "")
      then {| errors := errors v ++ [e] |}
      else v
  | None => v
  end.

(** The [Validate] method of [Validator]: the receiver is threaded through; the result is
    the Validator after the call and the returned [error] ([None] is nil). *)
Definition Validate {A : Type} `{Validateable A} (v : Validator) (val : A)
  : Validator * option ValidationErrors :=
  let params := Validations val in
  if (Z.of_nat (length params) =? 0) then (v, None)
  else
    let v' := fold_left collect params v in
    if (Z.of_nat (length (errors v')) >? 0) then (v', Some (errors v'))
    else (v', None).

(** ** Go's error interface *)

(** The dynamic types of [error] values that can meet [Translate]: the
    [ExecError] of text/template (template name and message), a
    [*ValidationError] (it has an [Error] method) and a plain error text. *)
Inductive error : Type :=
| ExecError (name : string) (msg : string)
| ErrValidation (ve : ValidationError)
| ErrorString (s : string).

(** [err.Error()] *)
Definition error_Error (e : error) : string :=
  match e with
  | ExecError _ msg => msg
  | ErrValidation ve => ValidationError_Error ve
  | ErrorString s => s
  end.

(** ** The Translator *)

(** What translator.go uses of text/template: parsing a named template text
    ([tmpl.New(key).Parse(msg)], [None] when it returns an error) and
    executing a parsed template on the message parameters into a fresh
    buffer ([tmpl.Execute(&buf, params)], the buffer's text or the error). *)
Class TemplateEngine : Type := {
  Template : Type;
  Parse : string -> string -> option Template;
  Execute : Template -> gmap string value -> string + error
}.

(** [messages] is the map the constructor was given (the Go struct keeps
    the caller's map, not a copy; the properties below are about a
    Translator as constructed).  [tmpl] is the set of templates associated
    with the root template "messages", by name; [Lookup] is the lookup of
    that map. *)
Record Translator `{TemplateEngine} : Type := {
  messages : gmap string string;
  tmpl : gmap string Template
}.

(** The loop of [NewTranslatorWithMessages], over the entries in the order
    [range] yields them.  [template.Must] panics on the first template that
    does not parse: [None]. *)
Fixpoint parseAll `{TemplateEngine} (entries : list (string * string))
    (set : gmap string Template) : option (gmap string Template) :=
  match entries with
  | [] => Some set
  | (key, msg) :: rest =>
      match Parse key msg with
      | Some t => parseAll rest (<[key := t]> set)
      | None => None
      end
  end.

(** [NewTranslatorWithMessages] when [range messages] yields [entries]; Go
    leaves the iteration order of a map unspecified.  [None] is the panic of
    [template.Must]: no Translator is returned. *)
Definition NewTranslatorWithMessages_in `{TemplateEngine}
    (entries : list (string * string)) (msgs : gmap string string)
  : option Translator :=
  match parseAll entries ∅ with
  | Some set => Some {| messages := msgs; tmpl := set |}
  | None => None
  end.

Definition NewTranslatorWithMessages `{TemplateEngine} (msgs : gmap string string)
  : option Translator :=
  NewTranslatorWithMessages_in (map_to_list msgs) msgs.

(** [Translate].  Inside the [if], [err] is the error of [Execute]; the type
    assertion of that error to a pointer to [ValidationError] is the match
    on [ErrValidation]. *)
Definition Translate `{TemplateEngine} (t : Translator) (err : ValidationError) : string :=
  match messages t !! MessageKey err with
  | None => MessageKey err
  | Some _ =>
      match tmpl t !! MessageKey err with
      | None => MessageKey err
      | Some tp =>
          match Execute tp (MessageParams err) with
          | inr e =>
              match e with
              | ErrValidation valErr => MessageKey valErr
              | _ => error_Error e
              end
          | inl out => out
          end
      end
  end.

Definition defaultMessages : gmap string string :=
  list_to_map
    [ (MsgRequired, "{{.Field}} alanı zorunludur");
      (MsgInvalidEmail, "{{.Field}} geçerli bir email adresi olmalıdır");
      (MsgMinLength, "{{.Field}} en az {{.Min}} karakter olmalıdır");
      (MsgMaxLength, "{{.Field}} en fazla {{.Max}} karakter olmalıdır");
      (MsgBetween, "{{.Field}} {{.Min}} ile {{.Max}} arasında olmalıdır");
      (MsgDateGreaterThan, "{{.Field}} {{.Min}} tarihinden sonra olmalıdır");
      (MsgDateLessThan, "{{.Field}} {{.Max}} tarihinden önce olmalıdır") ].

(** [NewTranslator] *)
Definition NewTranslator `{TemplateEngine} : option Translator :=
  NewTranslatorWithMessages defaultMessages.

(** ** text/template, the part the message templates use

    The Go standard library is not part of the repository.  This module
    models the fragment of text/template that the package's templates are
    written in: literal text and actions of the form [{{.Name}}], executed
    on a [map[string]interface{}].
    - The lexer splits the text at the leftmost [{{]; an action runs to the
      next [}}]; an action that is never closed is a parse error.
    - An action must be a dot followed by an identifier.  Other actions
      (pipelines, [if], [range], [define], trim markers, comments, spaces
      inside the delimiters) are outside the fragment and the model rejects
      them, also where the library would accept them; the statements below
      that depend on this module only speak about templates it accepts and
      about texts with an unclosed action.
    - Executing [{{.Name}}] looks [Name] up in the map.  A missing key
      yields the zero interface value, printed as [<no value>] (the
      library's default missingkey option); a channel cannot be printed and
      ends the execution with an [ExecError]; every other value is printed
      as [fmt.Fprint] prints it. *)
Module text_template.

Inductive Node : Type :=
| TextNode (text : string)
| FieldNode (ident : string).

Record Template : Type := {
  Name : string;
  Root : list Node
}.

Definition is_digit (c : ascii) : bool :=
  let n := nat_of_ascii c in (48 <=? n)%nat && (n <=? 57)%nat.

Definition is_letter (c : ascii) : bool :=
  let n := nat_of_ascii c in
  ((65 <=? n)%nat && (n <=? 90)%nat) || ((97 <=? n)%nat && (n <=? 122)%nat).

(** [isAlphaNumeric], on ASCII *)
Definition isAlphaNumeric (c : ascii) : bool :=
  Ascii.eqb c "_" || is_letter c || is_digit c.

Fixpoint all_alphanumeric (s : string) : bool :=
  match s with
  | EmptyString => true
  | String c s' => isAlphaNumeric c && all_alphanumeric s'
  end.

(** A field name: a non-empty alphanumeric run that does not start with a
    digit (a dot followed by a digit starts a number). *)
Definition is_ident (s : string) : bool :=
  match s with
  | EmptyString => false
  | String c _ => negb (is_digit c) && all_alphanumeric s
  end.

(** The content between the delimiters, parsed as a single field. *)
Definition parse_action (content : string) : option Node :=
  match content with
  | String c name =>
      if Ascii.eqb c "." && is_ident name then Some (FieldNode name) else None
  | EmptyString => None
  end.

(** One more byte of literal text in front of the nodes that follow it. *)
Definition cons_text (c : ascii) (ns : list Node) : list Node :=
  match ns with
  | TextNode t :: ns' => TextNode (String c t) :: ns'
  | _ => TextNode (String c EmptyString) :: ns
  end.

Inductive lexState : Type :=
| lexText
| lexInsideAction (content : string).

Fixpoint lex (st : lexState) (input : string) : option (list Node) :=
  match input with
  | EmptyString =>
      match st with
      | lexText => Some []
      | lexInsideAction _ => None
      end
  | String c rest =>
      match st with
      | lexText =>
          match Ascii.eqb c "{", rest with
          | true, String c' rest' =>
              if Ascii.eqb c' "{" then lex (lexInsideAction EmptyString) rest'
              else cons_text c <$> lex lexText rest
          | _, _ => cons_text c <$> lex lexText rest
          end
      | lexInsideAction content =>
          match Ascii.eqb c "}", rest with
          | true, String c' rest' =>
              if Ascii.eqb c' "}" then
                match parse_action content with
                | Some n => cons n <$> lex lexText rest'
                | None => None
                end
              else lex (lexInsideAction (content +:+ String c EmptyString)) rest
          | _, _ => lex (lexInsideAction (content +:+ String c EmptyString)) rest
          end
      end
  end.

Definition Parse (name text : string) : option Template :=
  match lex lexText text with
  | Some root => Some {| Name := name; Root := root |}
  | None => None
  end.

Section Exec.

(** [time.Time.String], the text [fmt] prints for a time value; its layout
    is not modelled. *)
Variable Time_String : time.Time -> string.

(** Decimal text of an int *)
Definition itoa (n : Z) : string := NilEmpty.string_of_int (Z.to_int n).

(** The text [printValue] writes for a value, [None] when it cannot be
    printed. *)
Definition printableValue (v : value) : option string :=
  match v with
  | VNil => Some "<no value>"
  | VString s => Some s
  | VInt n => Some (itoa n)
  | VBool b => Some (if b then "true" else "false")
  | VTime t => Some (Time_String t)
  | VInt64 n => Some (itoa n)
  | VStrings l => Some ("[" +:+ String.concat " " (default [] l) +:+ "]")
  | VChan _ => None
  end.

(** Field lookup on the map; a missing key gives the zero interface value. *)
Definition evalField (dot : gmap string value) (name : string) : value :=
  default VNil (dot !! name).

(** The message of the [ExecError] for a value that cannot be printed.  The
    library's text also carries the line and column of the action and the
    quoted template name; both are left out here. *)
Definition cannot_print (name ident : string) : error :=
  ExecError name
    ("template: " +:+ name +:+ ": executing at <{{." +:+ ident +:+
     "}}>: can't print {{." +:+ ident +:+ "}} of type chan int").

(** [walk] over the node list, appending to the buffer. *)
Fixpoint walk (name : string) (dot : gmap string value) (buf : string)
    (ns : list Node) : string + error :=
  match ns with
  | [] => inl buf
  | TextNode t :: ns' => walk name dot (buf +:+ t) ns'
  | FieldNode f :: ns' =>
      match printableValue (evalField dot f) with
      | Some txt => walk name dot (buf +:+ txt) ns'
      | None => inr (cannot_print name f)
      end
  end.

Definition Execute (t : Template) (data : gmap string value) : string + error :=
  walk (Name t) data EmptyString (Root t).

End Exec.

End text_template.

(** text/template as the engine of the Translator. *)
Definition go_template (Time_String : time.Time -> string) : TemplateEngine :=
  {| Template := text_template.Template;
     Parse := text_template.Parse;
     Execute := text_template.Execute Time_String |}.

(** ** Entities of the package's tests *)

(** [testStruct]: no rule at all. *)
Inductive testStruct : Type := mkTestStruct.

#[export] Instance testStruct_Validateable : Validateable testStruct :=
  fun _ => [].

(** [testStruct2] *)
Inductive testStruct2 : Type := mkTestStruct2.

#[export] Instance testStruct2_Validateable : Validateable testStruct2 :=
  fun _ => [ Required "name" (VString ""); Email "email" "invalid" ].

(** [testStruct3] *)
Record testStruct3 : Type := {
  ts3_Name : string;
  ts3_Email : string;
  ts3_Age : Z
}.

#[export] Instance testStruct3_Validateable : Validateable testStruct3 :=
  fun t => [ MinLength "Name" (ts3_Name t) 2;
             Email "Email" (ts3_Email t);
             Between "Age" (ts3_Age t) 18 100 ].

(** An entity of the tests that passes all its rules. *)
Definition john : testStruct3 :=
  {| ts3_Name := "John"; ts3_Email := "john@example.com"; ts3_Age := 25 |}.

(** ** Notions the properties are stated with *)

(** A value of any type that implements [Validateable]. *)
Inductive entity : Type :=
| Entity {A : Type} `{Validateable A} (val : A).

Definition entity_Validations (e : entity) : P :=
  match e with
  | Entity val => Validations val
  end.

Definition Validate_entity (v : Validator) (e : entity)
  : Validator * option ValidationErrors :=
  match e with
  | Entity val => Validate v val
  end.

(** The Validator after a sequence of [Validate] calls, one per entity. *)
Definition Validate_all (v : Validator) (es : list entity) : Validator :=
  fold_left (fun v e => fst (Validate_entity v e)) es v.

(** An entry of a rule sequence that is not absent and carries a non-empty
    message key. *)
Definition is_violation (o : option ValidationError) : bool :=
  match o with
  | Some e => negb (String.eqb (MessageKey e) "")
  | None => false
  end.

(** The number of such entries. *)
Fixpoint count_violations (params : P) : nat :=
  match params with
  | [] => 0%nat
  | o :: rest => ((if is_violation o then 1 else 0) + count_violations rest)%nat
  end.

(** The records of such entries, in the order of the sequence. *)
Definition violations (params : P) : ValidationErrors :=
  omap (fun o => if is_violation o then o else None) params.

(** The length of a string in characters: the code points of its UTF-8
    encoding, one per byte that is not a continuation byte (10xxxxxx). *)
Definition is_continuation (c : ascii) : bool :=
  let n := nat_of_ascii c in (128 <=? n)%nat && (n <? 192)%nat.

Fixpoint RuneCount (s : string) : Z :=
  match s with
  | EmptyString => 0
  | String c s' => (if is_continuation c then 0 else 1) + RuneCount s'
  end.

(** The zero values the specification lists for [Required]: the empty
    string, numeric zero, false, the zero time and nil; slices and channels
    are among the other types. *)
Definition zero_value (v : value) : bool :=
  match v with
  | VNil => true
  | VString s => String.eqb s ""
  | VInt n => n =? 0
  | VInt64 n => n =? 0
  | VBool b => negb b
  | VTime t => time.IsZero t
  | VStrings _ => false
  | VChan _ => false
  end.

(** A call of one of the seven rule functions. *)
Inductive rule_call : Type :=
| CallRequired (field : string) (v : value)
| CallEmail (field : string) (v : string)
| CallMinLength (field : string) (v : string) (min : Z)
| CallMaxLength (field : string) (v : string) (max : Z)
| CallBetween (field : string) (v min max : Z)
| CallDateGreaterThan (field : string) (v min : time.Time)
| CallDateLessThan (field : string) (v max : time.Time).

Definition run_rule (c : rule_call) : option ValidationError :=
  match c with
  | CallRequired f v => Required f v
  | CallEmail f v => Email f v
  | CallMinLength f v min => MinLength f v min
  | CallMaxLength f v max => MaxLength f v max
  | CallBetween f v min max => Between f v min max
  | CallDateGreaterThan f v min => DateGreaterThan f v min
  | CallDateLessThan f v max => DateLessThan f v max
  end.

(** The field argument of a call. *)
Definition call_field (c : rule_call) : string :=
  match c with
  | CallRequired f _ | CallEmail f _ | CallMinLength f _ _
  | CallMaxLength f _ _ | CallBetween f _ _ _
  | CallDateGreaterThan f _ _ | CallDateLessThan f _ _ => f
  end.

(** The checked value of a call, as the [interface{}] value it is stored
    as: the argument itself, with its own dynamic type. *)
Definition call_value (c : rule_call) : value :=
  match c with
  | CallRequired _ v => v
  | CallEmail _ v | CallMinLength _ v _ | CallMaxLength _ v _ => VString v
  | CallBetween _ v _ _ => VInt v
  | CallDateGreaterThan _ v _ | CallDateLessThan _ v _ => VTime v
  end.

(** The placeholder for a parameter name in a template text. *)
Definition placeholder (name : string) : string := "{{." +:+ name +:+ "}}".

(** [fills ts params text out]: [out] is the template [text] with every
    placeholder replaced by the string representation of the parameter it
    names, which must be supplied and have one; the rest of the text is
    copied.  A byte is literal text unless it opens a [{{]. *)
Inductive fills (Time_String : time.Time -> string) (params : gmap string value)
  : string -> string -> Prop :=
| fills_end : fills Time_String params EmptyString EmptyString
| fills_byte (c : ascii) (text out : string) :
    (c <> "{"%char \/ forall rest, text <> String "{" rest) ->
    fills Time_String params text out ->
    fills Time_String params (String c text) (String c out)
| fills_placeholder (name : string) (v : value) (repr text out : string) :
    text_template.is_ident name = true ->
    params !! name = Some v ->
    text_template.printableValue Time_String v = Some repr ->
    fills Time_String params text out ->
    fills Time_String params (placeholder name +:+ text) (repr +:+ out).

(** The error of the Translator's test of the minimum length message. *)
Definition min_length_error : ValidationError :=
  {| Field := "name";
     MessageKey := MsgMinLength;
     MessageParams := <[MessageParam.Field := VString "Name"]>
                      (<[MessageParam.Min := VInt 3]>
                      (<[MessageParam.Value := VString "J"]> ∅));
     CurrentValue := VNil |}.

(** An error, built by a caller, whose "Field" parameter is a channel. *)
Definition channel_error : ValidationError :=
  {| Field := "name";
     MessageKey := MsgRequired;
     MessageParams := <[MessageParam.Field := VChan 0]> ∅;
     CurrentValue := VNil |}.

(** A stand-in for [time.Time.String] in the concrete examples below, none
    of which prints a time. *)
Definition no_layout : time.Time -> string := fun _ => EmptyString.

(** ** Points in time

    What it means for one time to be before another, said without the
    comparison functions.  A well-formed [Time] has its nanoseconds within
    the second, and its instant is one number: the nanoseconds since the
    start of year 1.  Two times are compared on the monotonic clock when
    both carry a reading of it and on their instants otherwise. *)
Definition well_formed (t : time.Time) : Prop :=
  0 <= time.nsec t < 1000000000.

Definition instant (t : time.Time) : Z :=
  time.sec t * 1000000000 + time.nsec t.

(** The two readings that a comparison of [t] and [u] is about. *)
Definition readings (t u : time.Time) : Z * Z :=
  match time.mono t, time.mono u with
  | Some mt, Some mu => (mt, mu)
  | _, _ => (instant t, instant u)
  end.

Definition strictly_before (t u : time.Time) : Prop :=
  fst (readings t u) < snd (readings t u).

Definition strictly_after (t u : time.Time) : Prop :=
  fst (readings t u) > snd (readings t u).

Definition same_instant (t u : time.Time) : Prop :=
  fst (readings t u) = snd (readings t u).

(** Noon and a nanosecond later, read from the wall clock, and a time
    obtained from the running clock. *)
Definition noon : time.Time := time.mkTime 63900000000 0 None.
Definition just_after_noon : time.Time := time.mkTime 63900000000 1 None.
Definition noon_now : time.Time := time.mkTime 63900000000 0 (Some 7).

(** ** text/template around the fragment

    The whole library, as far as the fragment model knows it: a text of the
    fragment is parsed and executed as [text_template] does; any other text
    is left to [other], which stands for what the library does with the
    texts the fragment does not cover (spaces inside the delimiters,
    non-ASCII field names, pipelines, trim markers, ...), rejecting them
    included.  As in [parseAll], a text yields the template of its own key
    and defines no template of another name. *)
Definition go_template_beyond (Time_String : time.Time -> string)
    (other : TemplateEngine) : TemplateEngine :=
  {| Template := (text_template.Template + @Template other)%type;
     Parse := fun name text =>
       match text_template.Parse name text with
       | Some tp => Some (inl tp)
       | None =>
           match @Parse other name text with
           | Some o => Some (inr o)
           | None => None
           end
       end;
     Execute := fun tp data =>
       match tp with
       | inl tp => text_template.Execute Time_String tp data
       | inr o => @Execute other o data
       end |}.

(** An [other] that knows one more text, a Field placeholder written with
    a space on either side of the name, which the library accepts and
    renders like the placeholder without spaces. *)
Definition spaced_placeholder (Time_String : time.Time -> string) : TemplateEngine :=
  {| Template := string;
     Parse := fun name text =>
       if String.eqb text "{{ .Field }} is required" then Some name else None;
     Execute := fun name data =>
       match text_template.printableValue Time_String
               (text_template.evalField data "Field") with
       | Some txt => inl (txt +:+ " is required")
       | None => inr (text_template.cannot_print name "Field")
       end |}.

(** A registry with one template of the fragment and one beyond it. *)
Definition mixed_messages : list (string * string) :=
  [ (MsgRequired, "{{ .Field }} is required");
    (MsgMinLength, "The {{.Field}} must be at least {{.Min}} characters") ].

(** The last byte of a string. *)
Fixpoint last_byte (s : string) : option ascii :=
  match s with
  | EmptyString => None
  | String c s' =>
      match last_byte s' with
      | Some x => Some x
      | None => Some c
      end
  end.

(** The Translator after its caller has changed the map it was constructed
    from: the struct holds the caller's map itself, so [Translate] reads the
    changed map, and the template set of construction time. *)
Definition after_map_change `{TemplateEngine} (msgs' : gmap string string)
    (t : Translator) : Translator :=
  {| messages := msgs'; tmpl := tmpl t |}.

(** The error of the Translator's test of an unknown message key. *)
Definition unknown_key_error : ValidationError :=
  {| Field := "test";
     MessageKey := "unknown.key";
     MessageParams := ∅;
     CurrentValue := VNil |}.

(** ** Further notions, for the properties beyond the specification's *)

(** The message key each rule reports its violations under. *)
Definition rule_key (c : rule_call) : string :=
  match c with
  | CallRequired _ _ => MsgRequired
  | CallEmail _ _ => MsgInvalidEmail
  | CallMinLength _ _ _ => MsgMinLength
  | CallMaxLength _ _ _ => MsgMaxLength
  | CallBetween _ _ _ _ => MsgBetween
  | CallDateGreaterThan _ _ _ => MsgDateGreaterThan
  | CallDateLessThan _ _ _ => MsgDateLessThan
  end.

(** The default message of a rule call: the text of [defaultMessages] under
    the rule's key, with the field argument and the bounds of the call in
    the place of the placeholders. *)
Definition default_text (Time_String : time.Time -> string) (c : rule_call) : string :=
  match c with
  | CallRequired f _ => f +:+ " alanı zorunludur"
  | CallEmail f _ => f +:+ " geçerli bir email adresi olmalıdır"
  | CallMinLength f _ min =>
      f +:+ " en az " +:+ text_template.itoa min +:+ " karakter olmalıdır"
  | CallMaxLength f _ max =>
      f +:+ " en fazla " +:+ text_template.itoa max +:+ " karakter olmalıdır"
  | CallBetween f _ min max =>
      f +:+ " " +:+ text_template.itoa min +:+ " ile " +:+ text_template.itoa max
        +:+ " arasında olmalıdır"
  | CallDateGreaterThan f _ min =>
      f +:+ " " +:+ Time_String min +:+ " tarihinden sonra olmalıdır"
  | CallDateLessThan f _ max =>
      f +:+ " " +:+ Time_String max +:+ " tarihinden önce olmalıdır"
  end.

(** An error with one more message parameter. *)
Definition with_param (name : string) (v : value) (err : ValidationError)
  : ValidationError :=
  {| Field := Field err;
     MessageKey := MessageKey err;
     MessageParams := <[name := v]> (MessageParams err);
     CurrentValue := CurrentValue err |}.

(** A Required error that a caller built without any parameter. *)
Definition bare_required_error : ValidationError :=
  {| Field := "email";
     MessageKey := MsgRequired;
     MessageParams := ∅;
     CurrentValue := VNil |}.

(** The two messages of the package's test of custom messages. *)
Definition custom_messages : list (string * string) :=
  [ (MsgRequired, "The {{.Field}} field is required");
    (MsgMinLength, "The {{.Field}} must be at least {{.Min}} characters") ].

(** A registry with one message that has no placeholder. *)
Definition fixed_messages : gmap string string :=
  {[ MsgRequired := "This field is required" ]}.

(** An entity whose [Validations] is a sequence of calls of the rule
    functions, as the entities of the tests and of the documentation are. *)
Record rule_entity : Type := { calls : list rule_call }.

#[export] Instance rule_entity_Validateable : Validateable rule_entity :=
  fun e => map run_rule (calls e).

(** The default messages of the calls that report a violation, in order. *)
Definition default_texts (Time_String : time.Time -> string) (cs : list rule_call)
  : list string :=
  omap (fun c => match run_rule c with
                 | Some _ => Some (default_text Time_String c)
                 | None => None
                 end) cs.

(** The rules of [testStruct3], called on a name, an email address and an
    age that all fail. *)
Definition failing_rules : rule_entity :=
  {| calls := [ CallMinLength "Name" "J" 2;
                CallEmail "Email" "invalid";
                CallBetween "Age" 15 18 100 ] |}.

(** The bytes of a string. *)
Definition bytes (s : string) : list ascii := list_ascii_of_string s.

(** * Properties *)

(** ** Time comparisons *)

Lemma time_Before_irrefl (t : time.Time) : time.Before t t = false.
Proof.
  unfold time.Before. destruct (time.mono t); [apply Z.ltb_irrefl|].
  rewrite Z.ltb_irrefl, Z.eqb_refl. simpl. apply Z.ltb_irrefl.
Qed.

Lemma time_After_irrefl (t : time.Time) : time.After t t = false.
Proof.
  unfold time.After. destruct (time.mono t); rewrite !Z.gtb_ltb; [apply Z.ltb_irrefl|].
  rewrite Z.ltb_irrefl, Z.eqb_refl. simpl. apply Z.ltb_irrefl.
Qed.

Lemma time_After_Before (t u : time.Time) : time.After t u = time.Before u t.
Proof.
  unfold time.After, time.Before.
  destruct (time.mono t), (time.mono u); rewrite !Z.gtb_ltb; try reflexivity;
    rewrite (Z.eqb_sym (time.sec t) (time.sec u)); reflexivity.
Qed.

(** Without monotonic readings [Before] is the strict lexicographic order on
    (seconds, nanoseconds). *)
Lemma time_Before_wall (t u : time.Time) :
  time.mono t = None \/ time.mono u = None ->
  time.Before t u = true <->
  (time.sec t < time.sec u \/ (time.sec t = time.sec u /\ time.nsec t < time.nsec u)).
Proof.
  intros Hm. unfold time.Before.
  assert (Hwall : ((time.sec t <? time.sec u)
                   || ((time.sec t =? time.sec u) && (time.nsec t <? time.nsec u))) = true
                  <-> (time.sec t < time.sec u
                       \/ (time.sec t = time.sec u /\ time.nsec t < time.nsec u))).
  { rewrite orb_true_iff, andb_true_iff, !Z.ltb_lt, Z.eqb_eq. reflexivity. }
  destruct (time.mono t) as [mt|], (time.mono u) as [mu|]; try exact Hwall.
  destruct Hm; discriminate.
Qed.

(** ** The rules *)

(** Every rule is a conditional: absent exactly when its test is false. *)
Ltac rule_cases f :=
  unfold f; match goal with |- context [if ?b then _ else _] => destruct b eqn:?  end.

(** C9: [Between] reports no violation for every value of the closed
    interval [min, max] and a violation, with the key of the rule, for every
    value outside it; both bounds are inside. *)
Theorem Between_closed_interval (f : string) (v min max : Z) :
  (Between f v min max = None <-> min <= v <= max) /\
  ((exists ve, Between f v min max = Some ve /\ MessageKey ve = MsgBetween)
   <-> ~ (min <= v <= max)).
Proof.
  rule_cases Between.
  - apply orb_true_iff in Heqb. rewrite Z.ltb_lt, Z.gtb_ltb, Z.ltb_lt in Heqb.
    split; split.
    + discriminate.
    + lia.
    + lia.
    + intros _. eexists. split; reflexivity.
  - apply orb_false_iff in Heqb. rewrite Z.ltb_ge, Z.gtb_ltb, Z.ltb_ge in Heqb.
    split; split.
    + lia.
    + reflexivity.
    + intros (ve & Hve & _). discriminate.
    + lia.
Qed.

Lemma Before_strictly_before (t u : time.Time) :
  well_formed t -> well_formed u ->
  (time.Before t u = true <-> strictly_before t u).
Proof.
  unfold well_formed, strictly_before, readings, instant, time.Before.
  intros Ht Hu.
  destruct (time.mono t) as [mt|], (time.mono u) as [mu|]; cbn [fst snd];
    rewrite ?orb_true_iff, ?andb_true_iff, ?Z.ltb_lt, ?Z.eqb_eq; try reflexivity; nia.
Qed.

Lemma After_strictly_after (t u : time.Time) :
  well_formed t -> well_formed u ->
  (time.After t u = true <-> strictly_after t u).
Proof.
  unfold well_formed, strictly_after, readings, instant, time.After.
  intros Ht Hu.
  destruct (time.mono t) as [mt|], (time.mono u) as [mu|]; cbn [fst snd];
    rewrite ?Z.gtb_ltb, ?orb_true_iff, ?andb_true_iff, ?Z.ltb_lt, ?Z.eqb_eq;
    try lia; nia.
Qed.

(** C8: [DateGreaterThan] reports no violation exactly when the value is not
    strictly before the bound, [DateLessThan] exactly when it is not strictly
    after it, where before and after are the order of the points in time;
    a value at the same point in time as the bound passes both. *)
Theorem Date_rules_strict (f : string) (v min max : time.Time) :
  well_formed v -> well_formed min -> well_formed max ->
  (DateGreaterThan f v min = None <-> ~ strictly_before v min) /\
  (DateLessThan f v max = None <-> ~ strictly_after v max) /\
  (same_instant v min -> DateGreaterThan f v min = None) /\
  (same_instant v max -> DateLessThan f v max = None).
Proof.
  intros Hv Hmin Hmax.
  pose proof (Before_strictly_before v min Hv Hmin) as Hb.
  pose proof (After_strictly_after v max Hv Hmax) as Ha.
  assert (HG : DateGreaterThan f v min = None <-> ~ strictly_before v min).
  { rewrite <- Hb. rule_cases DateGreaterThan; split; congruence. }
  assert (HL : DateLessThan f v max = None <-> ~ strictly_after v max).
  { rewrite <- Ha. rule_cases DateLessThan; split; congruence. }
  split; [exact HG|]. split; [exact HL|]. split.
  - intros Hsame. apply HG. unfold same_instant, strictly_before in *. lia.
  - intros Hsame. apply HL. unfold same_instant, strictly_after in *. lia.
Qed.

(** C8 at noon: a value a nanosecond after the bound, a bound a nanosecond
    after the value, and a clock reading of the same instant. *)
Lemma Date_rules_strict_noon :
  (DateGreaterThan "FoundAt" just_after_noon noon = None <->
   ~ strictly_before just_after_noon noon) /\
  (DateLessThan "FoundAt" just_after_noon noon = None <->
   ~ strictly_after just_after_noon noon) /\
  DateGreaterThan "FoundAt" noon_now noon = None /\
  DateLessThan "FoundAt" noon_now noon = None.
Proof.
  assert (Hw : forall s n m, 0 <= n < 1000000000 -> well_formed (time.mkTime s n m))
    by (intros s n m H; exact H).
  destruct (Date_rules_strict "FoundAt" just_after_noon noon noon) as (H1 & H2 & _ & _);
    [apply Hw; lia | apply Hw; lia | apply Hw; lia |].
  destruct (Date_rules_strict "FoundAt" noon_now noon noon) as (_ & _ & H3 & H4);
    [apply Hw; lia | apply Hw; lia | apply Hw; lia |].
  split; [exact H1|]. split; [exact H2|].
  split; [apply H3; reflexivity | apply H4; reflexivity].
Defined.

(** C3, as stated, fails: the two bytes of the one character e-acute pass
    [MinLength] with a minimum of 2 although the string has fewer than two
    characters. *)
Lemma MinLength_not_in_characters :
  ~ (MinLength "name" "é" 2 = None <-> 2 <= RuneCount "é").
Proof.
  intros [H _]. assert (Hc : 2 <= RuneCount "é") by (apply H; reflexivity).
  vm_compute in Hc. apply Hc. reflexivity.
Qed.

(** C3, amended: [MinLength] reports no violation exactly when the length of
    the value in bytes is at least [min], [MaxLength] exactly when it is at
    most [max]. *)
Theorem Length_rules_in_bytes (f v : string) (min max : Z) :
  (MinLength f v min = None <-> min <= len v) /\
  (MaxLength f v max = None <-> len v <= max).
Proof.
  split.
  - rule_cases MinLength.
    + apply Z.ltb_lt in Heqb. split; [discriminate | lia].
    + apply Z.ltb_ge in Heqb. split; [intros _; lia | reflexivity].
  - rule_cases MaxLength.
    + rewrite Z.gtb_ltb in Heqb. apply Z.ltb_lt in Heqb. split; [discriminate | lia].
    + rewrite Z.gtb_ltb in Heqb. apply Z.ltb_ge in Heqb. split; [intros _; lia | reflexivity].
Qed.

(** On a string of ASCII bytes the two lengths agree. *)
Lemma RuneCount_ascii (s : string) :
  (forall c, Contains s c = true -> (nat_of_ascii c < 128)%nat) ->
  RuneCount s = len s.
Proof.
  unfold len. induction s as [|c s IH]; intros Hs; [reflexivity|].
  cbn [RuneCount String.length]. rewrite IH.
  - assert (Hc : (nat_of_ascii c < 128)%nat).
    { apply Hs. cbn [Contains]. rewrite Ascii.eqb_refl. reflexivity. }
    unfold is_continuation.
    destruct (128 <=? nat_of_ascii c)%nat eqn:E; [apply Nat.leb_le in E; lia|].
    cbn [andb]. lia.
  - intros c' Hc'. apply Hs. cbn [Contains]. rewrite Hc'. apply orb_true_r.
Qed.

(** [Required] follows [isZero]. *)
Lemma Required_isZero (f : string) (v : value) :
  Required f v = None <-> isZero v = false.
Proof. rule_cases Required; split; intros; congruence. Qed.

(** C4: at the zero of a numeric type other than [int] the code reports no
    violation, although the value is a numeric zero. *)
Theorem Required_misses_int64_zero :
  zero_value (VInt64 0) = true /\ Required "price" (VInt64 0) = None.
Proof. split; reflexivity. Qed.

(** On the five kinds of the type switch [Required] is a violation exactly
    at the zero value. *)
Lemma Required_supported_kinds (f : string) (v : value) :
  (forall n, v <> VInt64 n) ->
  (Required f v = None <-> zero_value v = false).
Proof.
  intros Hv. rewrite Required_isZero.
  destruct v; try reflexivity. exfalso. eapply Hv. reflexivity.
Qed.

(** C10: a rule that reports a violation stores its field argument in
    [Field] and under the parameter "Field", and the checked value itself,
    with its own type, under the parameter "Value" and in [CurrentValue]. *)
Theorem violation_carries_field_and_value (c : rule_call) (ve : ValidationError) :
  run_rule c = Some ve ->
  Field ve = call_field c /\
  MessageParams ve !! MessageParam.Field = Some (VString (call_field c)) /\
  MessageParams ve !! MessageParam.Value = Some (call_value c) /\
  CurrentValue ve = call_value c.
Proof.
  destruct c; cbn [run_rule call_field call_value];
    unfold Required, Email, MinLength, MaxLength, Between, DateGreaterThan,
      DateLessThan;
    match goal with |- context [if ?b then _ else _] => destruct b end;
    intros Hve; try discriminate; injection Hve as <-; cbn;
    unfold MessageParam.Field, MessageParam.Value, MessageParam.Min, MessageParam.Max;
    repeat split; by simplify_map_eq.
Qed.

(** C10, at a call of [MinLength] that fails. *)
Lemma violation_carries_field_and_value_MinLength :
  exists ve, MinLength "name" "a" 3 = Some ve /\
    Field ve = "name" /\
    MessageParams ve !! MessageParam.Field = Some (VString "name") /\
    MessageParams ve !! MessageParam.Value = Some (VString "a") /\
    CurrentValue ve = VString "a".
Proof.
  eexists. split; [reflexivity|].
  apply (violation_carries_field_and_value (CallMinLength "name" "a" 3)).
  reflexivity.
Defined.

(** ** The Validator *)

Lemma collect_errors (v : Validator) (o : option ValidationError) :
  errors (collect v o) = errors v ++ violations [o].
Proof.
  destruct o as [e|]; cbn; [|symmetry; apply app_nil_r].
  destruct (negb (MessageKey e =? "")%string); cbn; [reflexivity|].
  symmetry; apply app_nil_r.
Qed.

Lemma violations_cons (o : option ValidationError) (params : P) :
  violations (o :: params) = violations [o] ++ violations params.
Proof. unfold violations. cbn. destruct (is_violation o), o; reflexivity. Qed.

(** The loop appends the violations of the sequence, in order, to what the
    Validator already holds. *)
Lemma fold_collect_errors (params : P) (v : Validator) :
  errors (fold_left collect params v) = errors v ++ violations params.
Proof.
  revert v. induction params as [|o params IH]; intros v; cbn [fold_left].
  - symmetry; apply app_nil_r.
  - rewrite IH, collect_errors, (violations_cons o params). symmetry. apply app_assoc.
Qed.

Lemma fold_collect_none (params : P) (v : Validator) :
  violations params = [] -> fold_left collect params v = v.
Proof.
  revert v. induction params as [|o params IH]; intros v Hno; [reflexivity|].
  rewrite violations_cons in Hno. apply app_eq_nil in Hno as [Ho Hrest].
  cbn [fold_left]. rewrite IH by exact Hrest.
  destruct o as [e|]; [|reflexivity]. unfold violations in Ho. cbn in Ho. cbn.
  destruct (negb (MessageKey e =? "")%string); [discriminate | reflexivity].
Qed.

Lemma violations_length (params : P) :
  length (violations params) = count_violations params.
Proof.
  induction params as [|o params IH]; [reflexivity|].
  rewrite violations_cons, length_app, IH. cbn [count_violations].
  unfold violations. destruct o as [e|]; cbn; [|reflexivity].
  destruct (negb (MessageKey e =? "")%string); reflexivity.
Qed.

Lemma violations_sublist (params : P) :
  sublist (Some <$> violations params) params.
Proof.
  induction params as [|o params IH]; [constructor|].
  rewrite violations_cons, fmap_app. unfold violations at 1. cbn.
  destruct o as [e|]; cbn.
  - destruct (negb (MessageKey e =? "")%string); cbn;
      [apply sublist_skip | apply sublist_cons]; exact IH.
  - apply sublist_cons; exact IH.
Qed.

(** What one call does to the Validator and what it returns. *)
Lemma Validate_unfold {A : Type} `{Validateable A} (v : Validator) (val : A) :
  Validations val <> [] ->
  errors (fst (Validate v val)) = errors v ++ violations (Validations val) /\
  snd (Validate v val) =
    match errors v ++ violations (Validations val) with
    | [] => None
    | errs => Some errs
    end.
Proof.
  intros Hne. unfold Validate.
  destruct (Validations val) as [|o params] eqn:Hp; [contradiction|].
  replace (Z.of_nat (length (o :: params)) =? 0) with false
    by (symmetry; apply Z.eqb_neq; cbn [length]; lia).
  pose proof (fold_collect_errors (o :: params) v) as Hfold.
  set (v' := fold_left collect (o :: params) v) in *.
  rewrite <- Hfold. clearbody v'.
  destruct (errors v') as [|e errs] eqn:He.
  - change (Z.of_nat (length (@nil ValidationError)) >? 0) with false.
    cbn [fst snd]. rewrite He. split; reflexivity.
  - replace (Z.of_nat (length (e :: errs)) >? 0) with true
      by (symmetry; rewrite Z.gtb_ltb; apply Z.ltb_lt; cbn [length]; lia).
    cbn [fst snd]. rewrite He. split; reflexivity.
Qed.

Lemma Validate_empty {A : Type} `{Validateable A} (v : Validator) (val : A) :
  Validations val = [] -> Validate v val = (v, None).
Proof. intros Hp. unfold Validate. rewrite Hp. reflexivity. Qed.

Lemma Validate_errors {A : Type} `{Validateable A} (v : Validator) (val : A) :
  errors (fst (Validate v val)) = errors v ++ violations (Validations val).
Proof.
  destruct (Validations val) as [|o params] eqn:Hp.
  - rewrite Validate_empty by exact Hp. cbn. symmetry; apply app_nil_r.
  - rewrite <- Hp. apply Validate_unfold. rewrite Hp. discriminate.
Qed.

(** No call ever shortens the accumulator: after any sequence of calls it
    holds what it held before, followed by the violations of every call. *)
Lemma Validate_all_errors (es : list entity) (v : Validator) :
  errors (Validate_all v es) =
  errors v ++ concat (map (fun e => violations (entity_Validations e)) es).
Proof.
  revert v. induction es as [|e es IH]; intros v.
  - cbn. symmetry; apply app_nil_r.
  - unfold Validate_all in *. cbn [fold_left map concat]. rewrite IH.
    destruct e as [A HA val]. cbn [Validate_entity entity_Validations].
    rewrite (@Validate_errors A HA v val). symmetry. apply app_assoc.
Qed.

(** C2: the accumulator is not reset between calls.  A call that collects
    at least one error leaves its errors in the Validator, they are still
    there after any further calls, and a later call whose non-empty rule
    sequence adds nothing returns all that was accumulated. *)
Theorem Validate_accumulates_across_calls
    (v : Validator) (e1 : entity) (between : list entity) (e2 : entity) :
  violations (entity_Validations e1) <> [] ->
  let v1 := fst (Validate_entity v e1) in
  let v2 := Validate_all v1 between in
  errors v1 = errors v ++ violations (entity_Validations e1) /\
  errors v2 = errors v1 ++ concat (map (fun e => violations (entity_Validations e)) between) /\
  (entity_Validations e2 <> [] ->
   violations (entity_Validations e2) = [] ->
   Validate_entity v2 e2 = (v2, Some (errors v2)) /\ errors v2 <> []).
Proof.
  intros Hsome v1 v2.
  assert (H1 : errors v1 = errors v ++ violations (entity_Validations e1)).
  { subst v1. destruct e1 as [A HA val]. exact (@Validate_errors A HA v val). }
  assert (H2 : errors v2 = errors v1 ++
               concat (map (fun e => violations (entity_Validations e)) between)).
  { subst v2. apply Validate_all_errors. }
  split; [exact H1|]. split; [exact H2|].
  intros Hne Hnone.
  assert (Hv2 : errors v2 <> []).
  { rewrite H2, H1. intros Hnil.
    apply app_eq_nil in Hnil as [Hnil _]. apply app_eq_nil in Hnil as [_ Hnil].
    contradiction. }
  split; [|exact Hv2].
  destruct e2 as [A HA val]. cbn [Validate_entity entity_Validations] in *.
  unfold Validate.
  destruct (Validations val) as [|o params] eqn:Hp; [contradiction|].
  replace (Z.of_nat (length (o :: params)) =? 0) with false
    by (symmetry; apply Z.eqb_neq; cbn [length]; lia).
  rewrite fold_collect_none by exact Hnone.
  destruct (errors v2) as [|e errs]; [contradiction|].
  replace (Z.of_nat (length (e :: errs)) >? 0) with true
    by (symmetry; rewrite Z.gtb_ltb; apply Z.ltb_lt; cbn [length]; lia).
  reflexivity.
Qed.

(** C2, on a new Validator: a failing [testStruct2], then a passing
    [testStruct3], which gets the two errors of the first call. *)
Lemma Validate_accumulates_across_calls_tests :
  let v1 := fst (Validate New mkTestStruct2) in
  errors v1 = violations (Validations mkTestStruct2) /\
  Validate v1 john = (v1, Some (errors v1)) /\ errors v1 <> [].
Proof.
  pose proof (Validate_accumulates_across_calls New (Entity mkTestStruct2) []
                (Entity john)) as H.
  cbn zeta in H. intros v1.
  destruct H as (H1 & _ & H3); [discriminate|].
  split; [exact H1|]. apply H3; [discriminate | reflexivity].
Defined.

(** C5, as stated, fails on a Validator that has been used: after the
    failing [testStruct2], a [testStruct3] with no violation among its three
    rules still gets an error back. *)
Lemma Validate_used_returns_stale_errors :
  count_violations (Validations john) = 0%nat /\
  exists e1 e2,
    snd (Validate (fst (Validate New mkTestStruct2)) john) = Some [e1; e2].
Proof. split; [reflexivity|]. eexists _, _. reflexivity. Qed.

(** C5, amended: on a Validator whose accumulator is empty, as [New] returns
    it, [Validate] returns no error when none of the entries is a violation,
    and otherwise the collection of the [k] entries that are not absent and
    carry a non-empty message key, in their original order. *)
Theorem Validate_fresh_collects_violations
    {A : Type} `{Validateable A} (v : Validator) (val : A) (k : nat) :
  errors v = [] ->
  count_violations (Validations val) = k ->
  (k = 0%nat -> snd (Validate v val) = None) /\
  (k <> 0%nat ->
   exists errs, snd (Validate v val) = Some errs /\
     length errs = k /\
     errs = violations (Validations val) /\
     sublist (Some <$> errs) (Validations val)).
Proof.
  intros Hfresh Hk. rewrite <- violations_length in Hk.
  destruct (Validations val) as [|o params] eqn:Hp.
  - cbn in Hk. subst k. split; [|congruence].
    intros _. rewrite Validate_empty by exact Hp. reflexivity.
  - assert (Hne : Validations val <> []) by (rewrite Hp; discriminate).
    destruct (Validate_unfold v val Hne) as [_ Hres].
    rewrite Hfresh, Hp in Hres. cbn [app] in Hres. rewrite Hres.
    destruct (violations (o :: params)) as [|e errs] eqn:Hv.
    + cbn in Hk. subst k. split; [reflexivity | congruence].
    + split; [intros ->; discriminate|].
      intros _. exists (e :: errs). repeat split; [exact Hk|].
      rewrite <- Hv. apply violations_sublist.
Qed.

(** C5 amended, on the two errors of [testStruct2]. *)
Lemma Validate_fresh_collects_violations_testStruct2 :
  exists errs, snd (Validate New mkTestStruct2) = Some errs /\
    length errs = 2%nat /\
    errs = violations (Validations mkTestStruct2) /\
    sublist (Some <$> errs) (Validations mkTestStruct2).
Proof.
  apply (Validate_fresh_collects_violations New mkTestStruct2 2);
    [reflexivity | reflexivity | discriminate].
Defined.

(** ** Construction of a Translator *)

Section Construction.

Context `{engine : TemplateEngine}.

(** The loop panics exactly when one of the entries does not parse. *)
Lemma parseAll_None (entries : list (string * string)) (set : gmap string Template) :
  parseAll entries set = None <->
  exists key msg, (key, msg) ∈ entries /\ Parse key msg = None.
Proof.
  revert set. induction entries as [|[k m] rest IH]; intros set; cbn [parseAll].
  - split; [discriminate|]. intros (key & msg & Hin & _). inversion Hin.
  - destruct (Parse k m) as [t|] eqn:Hk.
    + rewrite IH. split.
      * intros (key & msg & Hin & Hp). exists key, msg. split; [by right | done].
      * intros (key & msg & Hin & Hp). exists key, msg. split; [|done].
        apply elem_of_cons in Hin as [Heq|Hin]; [|done].
        injection Heq as -> ->. congruence.
    + split; [|done]. intros _. exists k, m. split; [by left | done].
Qed.

(** When it does not panic, the set holds under each key the parsed text of
    that key, and nothing else is touched. *)
Lemma parseAll_Some (entries : list (string * string)) (set set' : gmap string Template) :
  parseAll entries set = Some set' ->
  NoDup entries.*1 ->
  (forall key msg, (key, msg) ∈ entries -> set' !! key = Parse key msg /\ is_Some (Parse key msg)) /\
  (forall key, key ∉ entries.*1 -> set' !! key = set !! key).
Proof.
  revert set. induction entries as [|[k m] rest IH]; intros set Hall Hnd; cbn [parseAll] in Hall.
  - injection Hall as <-. split; [|done]. intros key msg Hin. inversion Hin.
  - destruct (Parse k m) as [t|] eqn:Hk; [|discriminate].
    cbn in Hnd. apply NoDup_cons in Hnd as [Hk_fresh Hnd].
    destruct (IH _ Hall Hnd) as [IHin IHout]. split.
    + intros key msg Hin. apply elem_of_cons in Hin as [Heq|Hin]; [|by apply IHin].
      injection Heq as -> ->. rewrite (IHout k Hk_fresh), lookup_insert_eq, Hk. eauto.
    + intros key Hout. cbn in Hout. apply not_elem_of_cons in Hout as [Hne Hout].
      rewrite (IHout key Hout). by apply lookup_insert_ne.
Qed.

(** Whatever order [range] picks, the entries are those of the map. *)
Lemma range_entries (msgs : gmap string string) (entries : list (string * string)) :
  entries ≡ₚ map_to_list msgs ->
  NoDup entries.*1 /\
  (forall key msg, (key, msg) ∈ entries <-> msgs !! key = Some msg).
Proof.
  intros Hperm. split.
  - rewrite Hperm. apply NoDup_fst_map_to_list.
  - intros key msg. rewrite Hperm. apply elem_of_map_to_list.
Qed.

(** A Translator that was constructed holds the map it was given and, under
    each of its keys, the parsed template of that key. *)
Lemma constructed_Translator (msgs : gmap string string)
    (entries : list (string * string)) (t : Translator) :
  entries ≡ₚ map_to_list msgs ->
  NewTranslatorWithMessages_in entries msgs = Some t ->
  messages t = msgs /\
  (forall key msg, msgs !! key = Some msg ->
     tmpl t !! key = Parse key msg /\ is_Some (Parse key msg)).
Proof.
  intros Hperm Hnew. unfold NewTranslatorWithMessages_in in Hnew.
  destruct (parseAll entries ∅) as [set|] eqn:Hall; [|discriminate].
  injection Hnew as <-. cbn. split; [reflexivity|].
  destruct (range_entries msgs entries Hperm) as [Hnd Hin].
  destruct (parseAll_Some entries ∅ set Hall Hnd) as [Hset _].
  intros key msg Hk. apply Hset, Hin, Hk.
Qed.

(** C7: construction fails at once, by the panic of [template.Must], when
    one of the supplied templates does not parse, in whatever order the map
    is traversed; when all of them parse it returns a Translator that holds
    every parsed template. *)
Theorem construction_fails_fast (msgs : gmap string string)
    (entries : list (string * string)) :
  entries ≡ₚ map_to_list msgs ->
  ((exists key msg, msgs !! key = Some msg /\ Parse key msg = None) ->
   NewTranslatorWithMessages_in entries msgs = None) /\
  ((forall key msg, msgs !! key = Some msg -> is_Some (Parse key msg)) ->
   exists t, NewTranslatorWithMessages_in entries msgs = Some t /\
     messages t = msgs /\
     forall key msg, msgs !! key = Some msg -> tmpl t !! key = Parse key msg).
Proof.
  intros Hperm. destruct (range_entries msgs entries Hperm) as [Hnd Hin]. split.
  - intros (key & msg & Hk & Hbad). unfold NewTranslatorWithMessages_in.
    replace (parseAll entries ∅) with (@None (gmap string Template)); [reflexivity|].
    symmetry. apply parseAll_None. exists key, msg. split; [by apply Hin | done].
  - intros Hgood. destruct (parseAll entries ∅) as [set|] eqn:Hall.
    + assert (Hnew : NewTranslatorWithMessages_in entries msgs
                     = Some {| messages := msgs; tmpl := set |}).
      { unfold NewTranslatorWithMessages_in. rewrite Hall. reflexivity. }
      eexists. split; [exact Hnew|].
      destruct (constructed_Translator msgs entries _ Hperm Hnew) as [Hm Ht].
      split; [exact Hm|]. intros key msg Hk. apply Ht, Hk.
    + apply parseAll_None in Hall as (key & msg & Hk & Hbad).
      apply Hin in Hk. destruct (Hgood key msg Hk) as [tp Htp]. congruence.
Qed.

(** [Translate] on a key that the map does not have. *)
Lemma Translate_unknown_key (t : Translator) (err : ValidationError) :
  messages t !! MessageKey err = None -> Translate t err = MessageKey err.
Proof. intros Hk. unfold Translate. rewrite Hk. reflexivity. Qed.

(** [Translate] on a key of the map: the outcome of executing its template. *)
Lemma Translate_known_key (msgs : gmap string string)
    (entries : list (string * string)) (t : Translator)
    (err : ValidationError) (msg : string) :
  entries ≡ₚ map_to_list msgs ->
  NewTranslatorWithMessages_in entries msgs = Some t ->
  msgs !! MessageKey err = Some msg ->
  exists tp, Parse (MessageKey err) msg = Some tp /\
    Translate t err =
      match Execute tp (MessageParams err) with
      | inl out => out
      | inr e => error_Error e
      end.
Proof.
  intros Hperm Hnew Hk.
  destruct (constructed_Translator msgs entries t Hperm Hnew) as [Hm Ht].
  destruct (Ht _ _ Hk) as [Hlook [tp Htp]]. exists tp. split; [exact Htp|].
  unfold Translate. rewrite Hm, Hk, Hlook, Htp.
  destruct (Execute tp (MessageParams err)) as [out|e]; [reflexivity|].
  destruct e; reflexivity.
Qed.

(** C1, amended: for a message key of the registry, when rendering its
    template fails [Translate] returns the text of the rendering error, as
    its [Error] method gives it (the message key only for an error that is
    itself a Validation Error); when rendering succeeds it returns the
    rendered text.  [Translate] is a total function to strings: it returns a
    string in every case. *)
Theorem Translate_returns_render_error_text (msgs : gmap string string)
    (entries : list (string * string)) (t : Translator)
    (err : ValidationError) (msg : string) :
  entries ≡ₚ map_to_list msgs ->
  NewTranslatorWithMessages_in entries msgs = Some t ->
  msgs !! MessageKey err = Some msg ->
  exists tp, Parse (MessageKey err) msg = Some tp /\
    (forall e, Execute tp (MessageParams err) = inr e ->
       Translate t err = error_Error e) /\
    (forall out, Execute tp (MessageParams err) = inl out ->
       Translate t err = out).
Proof.
  intros Hperm Hnew Hk.
  destruct (Translate_known_key msgs entries t err msg Hperm Hnew Hk)
    as (tp & Htp & Htr).
  exists tp. split; [exact Htp|].
  split; intros r Hr; rewrite Htr, Hr; reflexivity.
Qed.

End Construction.

(** ** Templates of literal text and placeholders *)

Lemma append_cons (c : ascii) (s1 s2 : string) :
  String c s1 +:+ s2 = String c (s1 +:+ s2).
Proof. reflexivity. Qed.

Lemma append_nil_r (s : string) : s +:+ EmptyString = s.
Proof.
  induction s as [|c s IH]; [reflexivity|]. by rewrite append_cons, IH.
Qed.

Lemma append_assoc (s1 s2 s3 : string) : (s1 +:+ s2) +:+ s3 = s1 +:+ (s2 +:+ s3).
Proof.
  induction s1 as [|c s1 IH]; [reflexivity|]. by rewrite !append_cons, IH.
Qed.

Lemma alphanumeric_not_closing (c : ascii) :
  text_template.isAlphaNumeric c = true -> Ascii.eqb c "}" = false.
Proof.
  intros Hc. destruct (Ascii.eqb_spec c "}") as [->|]; [|reflexivity].
  vm_compute in Hc. discriminate.
Qed.

Lemma length_append (s1 s2 : string) :
  String.length (s1 +:+ s2) = (String.length s1 + String.length s2)%nat.
Proof.
  induction s1 as [|c s1 IH]; [reflexivity|].
  rewrite append_cons. cbn [String.length]. by rewrite IH.
Qed.

(** In text, a byte that does not open an action is copied. *)
Lemma lex_text_byte (c : ascii) (text : string) :
  (c <> "{"%char \/ forall rest, text <> String "{" rest) ->
  text_template.lex text_template.lexText (String c text) =
  text_template.cons_text c <$> text_template.lex text_template.lexText text.
Proof.
  intros Hc. cbn [text_template.lex].
  destruct (Ascii.eqb_spec c "{") as [->|Hne]; [|reflexivity].
  destruct text as [|c' rest]; [reflexivity|].
  destruct (Ascii.eqb_spec c' "{") as [->|Hne']; [|reflexivity].
  destruct Hc as [Hc|Hc]; [contradiction|]. exfalso. by eapply Hc.
Qed.

(** Inside an action, an alphanumeric run is read up to the closing
    delimiter. *)
Lemma lex_action_run (name : string) (content rest : string) :
  text_template.all_alphanumeric name = true ->
  text_template.lex (text_template.lexInsideAction content) (name +:+ "}}" +:+ rest) =
  match text_template.parse_action (content +:+ name) with
  | Some n => cons n <$> text_template.lex text_template.lexText rest
  | None => None
  end.
Proof.
  revert content. induction name as [|c name IH]; intros content Hname.
  - rewrite append_nil_r. reflexivity.
  - cbn [text_template.all_alphanumeric] in Hname.
    apply andb_true_iff in Hname as [Hc Hname].
    rewrite append_cons. cbn [text_template.lex].
    rewrite (alphanumeric_not_closing c Hc), (IH _ Hname), append_assoc.
    reflexivity.
Qed.

Lemma is_ident_alphanumeric (name : string) :
  text_template.is_ident name = true -> text_template.all_alphanumeric name = true.
Proof.
  unfold text_template.is_ident. destruct name as [|c name]; [discriminate|].
  intros H. apply andb_true_iff in H as [_ H]. exact H.
Qed.

(** A placeholder is lexed and parsed into one field node. *)
Lemma lex_placeholder (name rest : string) :
  text_template.is_ident name = true ->
  text_template.lex text_template.lexText (placeholder name +:+ rest) =
  cons (text_template.FieldNode name) <$> text_template.lex text_template.lexText rest.
Proof.
  intros Hname. unfold placeholder.
  change (("{{." +:+ name +:+ "}}") +:+ rest)
    with (String "{" (String "{" (String "." ((name +:+ "}}") +:+ rest)))).
  rewrite append_assoc. cbn [text_template.lex Ascii.eqb Bool.eqb].
  rewrite (lex_action_run name _ rest (is_ident_alphanumeric name Hname)).
  change ((EmptyString +:+ ".") +:+ name) with (String "." name).
  cbn [text_template.parse_action Ascii.eqb Bool.eqb andb].
  rewrite Hname. reflexivity.
Qed.

Section Rendering.

Variable Time_String : time.Time -> string.

(** Writing into a buffer that already holds text. *)
Lemma walk_buf (name : string) (dot : gmap string value) (ns : list text_template.Node)
    (buf : string) :
  text_template.walk Time_String name dot buf ns =
  match text_template.walk Time_String name dot EmptyString ns with
  | inl out => inl (buf +:+ out)
  | inr e => inr e
  end.
Proof.
  revert buf. induction ns as [|[t|f] ns IH]; intros buf; cbn [text_template.walk].
  - by rewrite append_nil_r.
  - rewrite (IH (buf +:+ t)), (IH (EmptyString +:+ t)).
    destruct (text_template.walk Time_String name dot EmptyString ns); [|reflexivity].
    by rewrite append_assoc.
  - destruct (text_template.printableValue Time_String (text_template.evalField dot f))
      as [txt|]; [|reflexivity].
    rewrite (IH (buf +:+ txt)), (IH (EmptyString +:+ txt)).
    destruct (text_template.walk Time_String name dot EmptyString ns); [|reflexivity].
    by rewrite append_assoc.
Qed.

Lemma walk_cons_text (name : string) (dot : gmap string value) (c : ascii)
    (ns : list text_template.Node) (buf : string) :
  text_template.walk Time_String name dot buf (text_template.cons_text c ns) =
  text_template.walk Time_String name dot (buf +:+ String c EmptyString) ns.
Proof.
  destruct ns as [|[t|f] ns]; cbn [text_template.cons_text text_template.walk];
    try reflexivity.
  by rewrite append_assoc.
Qed.

(** A text that [fills] describes parses, and executing the parsed template
    on the parameters writes the filled text. *)
Lemma fills_Parse_Execute (params : gmap string value) (name text out : string) :
  fills Time_String params text out ->
  exists tp, text_template.Parse name text = Some tp /\
    text_template.Execute Time_String tp params = inl out.
Proof.
  intros Hf.
  assert (Hns : exists ns, text_template.lex text_template.lexText text = Some ns /\
                  text_template.walk Time_String name params EmptyString ns = inl out).
  { induction Hf as [|c text out Hc Hf (ns & Hlex & Hwalk)
                      |id v repr text out Hid Hv Hrepr Hf (ns & Hlex & Hwalk)].
    - exists []. split; reflexivity.
    - exists (text_template.cons_text c ns). split.
      + rewrite (lex_text_byte c text Hc), Hlex. reflexivity.
      + rewrite walk_cons_text, walk_buf, Hwalk. reflexivity.
    - exists (text_template.FieldNode id :: ns). split.
      + rewrite (lex_placeholder id text Hid), Hlex. reflexivity.
      + cbn [text_template.walk]. unfold text_template.evalField.
        rewrite Hv. change (default VNil (Some v)) with v.
        rewrite Hrepr, walk_buf, Hwalk. reflexivity. }
  destruct Hns as (ns & Hlex & Hwalk).
  exists {| text_template.Name := name; text_template.Root := ns |}.
  unfold text_template.Parse, text_template.Execute. rewrite Hlex. split; [reflexivity|].
  exact Hwalk.
Qed.

(** Literal text without an opening brace is copied. *)
Lemma fills_text (params : gmap string value) (s text out : string) :
  Contains s "{" = false ->
  fills Time_String params text out ->
  fills Time_String params (s +:+ text) (s +:+ out).
Proof.
  induction s as [|c s IH]; intros Hs Hf; [exact Hf|].
  cbn [Contains] in Hs. apply orb_false_iff in Hs as [Hc Hs].
  rewrite !append_cons. apply fills_byte; [|by apply IH].
  left. intros ->. discriminate.
Qed.

(** The errors of the engine are [ExecError]s. *)
Lemma walk_error (name : string) (dot : gmap string value) (ns : list text_template.Node)
    (buf : string) (e : error) :
  text_template.walk Time_String name dot buf ns = inr e ->
  exists ident, e = text_template.cannot_print name ident.
Proof.
  revert buf. induction ns as [|[t|f] ns IH]; intros buf; cbn [text_template.walk].
  - discriminate.
  - apply IH.
  - destruct (text_template.printableValue Time_String (text_template.evalField dot f)).
    + apply IH.
    + intros [= <-]. by exists f.
Qed.


(** The text of a rendering error is longer than the name of its template,
    which is the message key. *)
Lemma cannot_print_not_the_name (name ident : string) :
  error_Error (text_template.cannot_print name ident) <> name.
Proof.
  intros Heq. apply (f_equal String.length) in Heq.
  cbn [error_Error text_template.cannot_print] in Heq.
  rewrite !length_append in Heq. cbn [String.length] in Heq. lia.
Qed.

(** With text/template as the engine, no rendering failure is answered with
    the message key. *)
Lemma Translate_render_failure_never_the_key (msgs : gmap string string)
    (entries : list (string * string))
    (t : @Translator (go_template Time_String)) (err : ValidationError)
    (msg : string) (tp : text_template.Template) (e : error) :
  entries ≡ₚ map_to_list msgs ->
  @NewTranslatorWithMessages_in (go_template Time_String) entries msgs = Some t ->
  msgs !! MessageKey err = Some msg ->
  text_template.Parse (MessageKey err) msg = Some tp ->
  text_template.Execute Time_String tp (MessageParams err) = inr e ->
  Translate t err <> MessageKey err.
Proof.
  intros Hperm Hnew Hk Htp Hexec.
  destruct (Translate_known_key msgs entries t err msg Hperm Hnew Hk)
    as (tp' & Htp' & ->).
  cbn in Htp'. rewrite Htp in Htp'. injection Htp' as <-.
  cbn. rewrite Hexec.
  unfold text_template.Parse in Htp.
  destruct (text_template.lex text_template.lexText msg) as [root|]; [|discriminate].
  injection Htp as <-. unfold text_template.Execute in Hexec. cbn in Hexec.
  apply walk_error in Hexec as [ident ->]. apply cannot_print_not_the_name.
Qed.

End Rendering.

(** ** The default Translator, on concrete errors *)

(** C7, on a template with an action that is never closed: no Translator
    is returned. *)
Lemma construction_fails_fast_unclosed_action :
  @NewTranslatorWithMessages (go_template no_layout)
    {[ MsgRequired := "{{.Field" ]} = None.
Proof.
  apply (construction_fails_fast (engine := go_template no_layout)
           {[ MsgRequired := "{{.Field" ]}
           (map_to_list {[ MsgRequired := "{{.Field" ]})).
  - reflexivity.
  - exists MsgRequired, "{{.Field". split; [apply lookup_singleton_eq | reflexivity].
Defined.

(** The default templates all parse: [NewTranslator] returns a Translator. *)
Lemma NewTranslator_returns :
  exists t, @NewTranslator (go_template no_layout) = Some t.
Proof.
  assert (H : match @NewTranslator (go_template no_layout) with
              | Some _ => True
              | None => False
              end) by (vm_compute; exact I).
  destruct (@NewTranslator (go_template no_layout)) as [t|]; [|destruct H].
  exists t. reflexivity.
Qed.

Lemma defaultMessages_required :
  defaultMessages !! MsgRequired = Some "{{.Field}} alanı zorunludur".
Proof. vm_compute. reflexivity. Qed.

(** C1, as stated, fails: the default Translator has a template for the key
    of [channel_error], rendering it fails on the channel, and [Translate]
    returns a text that is not the message key. *)
Lemma Translate_render_failure_is_not_the_key :
  exists t, @NewTranslator (go_template no_layout) = Some t /\
    is_Some (messages t !! MessageKey channel_error) /\
    (exists tp e, tmpl t !! MessageKey channel_error = Some tp /\
       Execute tp (MessageParams channel_error) = inr e) /\
    Translate t channel_error <> MessageKey channel_error.
Proof.
  destruct NewTranslator_returns as [t Hnew]. exists t. split; [exact Hnew|].
  destruct (constructed_Translator (engine := go_template no_layout)
              defaultMessages (map_to_list defaultMessages) t)
    as [Hm Htmpl]; [reflexivity | exact Hnew |].
  destruct (Htmpl _ _ defaultMessages_required) as [Hlook _].
  split; [|split].
  - rewrite Hm. eexists. exact defaultMessages_required.
  - eexists _, _. split.
    + etransitivity; [exact Hlook|]. vm_compute. reflexivity.
    + vm_compute. reflexivity.
  - destruct (Translate_known_key (engine := go_template no_layout)
                defaultMessages (map_to_list defaultMessages) t channel_error
                "{{.Field}} alanı zorunludur")
      as (tp & Htp & ->); [reflexivity | exact Hnew | exact defaultMessages_required |].
    vm_compute in Htp. injection Htp as <-. vm_compute. discriminate.
Qed.

(** C1 amended, on the same error: the text returned is the text of the
    rendering error. *)
Lemma Translate_returns_render_error_text_channel :
  exists t, @NewTranslator (go_template no_layout) = Some t /\
    Translate t channel_error =
    error_Error (text_template.cannot_print MsgRequired "Field").
Proof.
  destruct NewTranslator_returns as [t Hnew].
  exists t. split; [exact Hnew|].
  destruct (Translate_returns_render_error_text (engine := go_template no_layout)
              defaultMessages (map_to_list defaultMessages) t channel_error
              "{{.Field}} alanı zorunludur")
    as (tp & Htp & Herr & _).
  - reflexivity.
  - exact Hnew.
  - exact defaultMessages_required.
  - apply Herr. vm_compute in Htp. injection Htp as <-. vm_compute. reflexivity.
Defined.

Lemma last_byte_append (s1 s2 : string) :
  s2 <> EmptyString -> last_byte (s1 +:+ s2) = last_byte s2.
Proof.
  intros Hs2. induction s1 as [|c s1 IH]; [reflexivity|].
  rewrite append_cons. cbn [last_byte]. rewrite IH.
  destruct s2 as [|c2 s2]; [contradiction|]. cbn [last_byte].
  destruct (last_byte s2); reflexivity.
Qed.


Lemma mixed_messages_range :
  mixed_messages ≡ₚ map_to_list (list_to_map mixed_messages : gmap string string).
Proof.
  symmetry. apply map_to_list_to_map.
  apply NoDup_cons. split; [|apply NoDup_singleton].
  intros Hin. apply list_elem_of_singleton in Hin. discriminate Hin.
Qed.

Lemma mixed_messages_construct :
  exists t, @NewTranslatorWithMessages_in
              (go_template_beyond no_layout (spaced_placeholder no_layout))
              mixed_messages (list_to_map mixed_messages) = Some t.
Proof.
  assert (H : match @NewTranslatorWithMessages_in
                      (go_template_beyond no_layout (spaced_placeholder no_layout))
                      mixed_messages (list_to_map mixed_messages) with
              | Some _ => True
              | None => False
              end) by (vm_compute; exact I).
  destruct (@NewTranslatorWithMessages_in
              (go_template_beyond no_layout (spaced_placeholder no_layout))
              mixed_messages (list_to_map mixed_messages)) as [t|]; [|destruct H].
  exists t. reflexivity.
Qed.


(** ** The concrete scenarios of the specification *)

Example Required_empty_name :
  exists ve, Required "name" (VString "") = Some ve /\
    MessageKey ve = "validation.required" /\
    MessageParams ve =
      <[MessageParam.Field := VString "name"]> (<[MessageParam.Value := VString ""]> ∅).
Proof. eexists. repeat split. Qed.

Example Required_zero_time :
  isZero (VTime time.zero) = true /\ isZero (VStrings (Some [])) = false.
Proof. split; reflexivity. Qed.

Example Between_age_17 : is_Some (Between "age" 17 18 100).
Proof. eexists. reflexivity. Qed.

Example Between_age_18 : Between "age" 18 18 100 = None.
Proof. reflexivity. Qed.

Example Validate_testStruct : Validate New mkTestStruct = (New, None).
Proof. reflexivity. Qed.

Example Translate_unknown_key_test :
  exists t, @NewTranslator (go_template no_layout) = Some t /\
    Translate t {| Field := "test"; MessageKey := "unknown.key";
                   MessageParams := ∅; CurrentValue := VNil |} = "unknown.key".
Proof.
  destruct NewTranslator_returns as [t Hnew]. exists t. split; [exact Hnew|].
  apply Translate_unknown_key.
  destruct (constructed_Translator (engine := go_template no_layout)
              defaultMessages (map_to_list defaultMessages) t)
    as [-> _]; [reflexivity | exact Hnew |].
  vm_compute. reflexivity.
Qed.

Example ValidationErrors_Error_test :
  ValidationErrors_Error
    [ {| Field := "name"; MessageKey := MsgRequired;
         MessageParams := ∅; CurrentValue := VNil |};
      {| Field := "email"; MessageKey := MsgInvalidEmail;
         MessageParams := ∅; CurrentValue := VNil |} ]
  = "validation.required; validation.email".
Proof. reflexivity. Qed.

(** * Further properties of the code *)

(** ** The rules, at the edges of their arguments *)

Lemma Contains_bytes (s : string) (c : ascii) :
  Contains s c = true <-> In c (bytes s).
Proof.
  unfold bytes. induction s as [|x s IH]; cbn [Contains list_ascii_of_string In].
  - split; [discriminate | tauto].
  - rewrite orb_true_iff, IH. destruct (Ascii.eqb_spec x c); intuition congruence.
Qed.

(** X1: [Email] reports no violation exactly when both an at sign and a dot
    occur among the bytes of the value, wherever they stand; a violation
    carries the key of the rule. *)
Theorem Email_at_sign_and_dot (f v : string) :
  (Email f v = None <-> In "@"%char (bytes v) /\ In "."%char (bytes v)) /\
  (forall ve, Email f v = Some ve -> MessageKey ve = MsgInvalidEmail).
Proof.
  rewrite <- !Contains_bytes. unfold Email.
  destruct (Contains v "@"), (Contains v "."); cbn [negb orb]; split;
    try (split; [discriminate | intros [? ?]; discriminate]);
    try (split; [tauto | reflexivity]);
    intros ve Hve; try discriminate; injection Hve as <-; reflexivity.
Qed.

(** X2: [Required] reports a violation exactly for the empty string, the
    [int] 0, [false], a time whose wall clock instant is zero, and the nil
    interface value; for every other value, the zeros of other types among
    them, it reports none. *)
Theorem Required_violation_cases (f : string) (v : value) :
  is_Some (Required f v) <->
  v = VString "" \/ v = VInt 0 \/ v = VBool false \/
  (exists t, v = VTime t /\ time.sec t = 0 /\ time.nsec t = 0) \/
  v = VNil.
Proof.
  unfold Required. split.
  - intros [ve Hve]. destruct (isZero v) eqn:Hz; [|discriminate].
    destruct v as [|s|n|b|t|n|l|id]; cbn in Hz; try discriminate.
    + tauto.
    + apply String.eqb_eq in Hz. subst. tauto.
    + apply Z.eqb_eq in Hz. subst. tauto.
    + destruct b; [discriminate | tauto].
    + unfold time.IsZero in Hz. apply andb_true_iff in Hz as [Hs Hn].
      apply Z.eqb_eq in Hs, Hn. right; right; right; left. eauto.
  - intros [ -> | [ -> | [ -> | [ (t & -> & Hs & Hn) | -> ] ] ] ]; cbn; eauto.
    unfold time.IsZero. rewrite Hs, Hn. cbn. eauto.
Qed.

(** X3: degenerate bounds.  [Between] with [max < min] rejects every value;
    [MinLength] with a minimum of 0 or less accepts every string;
    [MaxLength] with a negative maximum rejects every string, the empty one
    included. *)
Theorem rules_with_degenerate_bounds (f v : string) (n min max : Z) :
  (max < min -> is_Some (Between f n min max)) /\
  (min <= 0 -> MinLength f v min = None) /\
  (max < 0 -> is_Some (MaxLength f v max)).
Proof.
  assert (Hlen : 0 <= len v) by (unfold len; lia).
  repeat split.
  - intros Hb. rule_cases Between; [eauto|].
    apply orb_false_iff in Heqb as [H1 H2].
    apply Z.ltb_ge in H1. rewrite Z.gtb_ltb in H2. apply Z.ltb_ge in H2. lia.
  - intros Hb. rule_cases MinLength; [|reflexivity].
    apply Z.ltb_lt in Heqb. lia.
  - intros Hb. rule_cases MaxLength; [eauto|].
    rewrite Z.gtb_ltb in Heqb. apply Z.ltb_ge in Heqb. lia.
Qed.

(** X3 for an age between 100 and 18, a minimum length of 0 and a maximum
    length of -1. *)
Lemma rules_with_degenerate_bounds_examples :
  is_Some (Between "age" 50 100 18) /\
  MinLength "name" "" 0 = None /\
  is_Some (MaxLength "name" "" (-1)).
Proof.
  destruct (rules_with_degenerate_bounds "age" "" 50 100 18) as (HB & _ & _).
  destruct (rules_with_degenerate_bounds "name" "" 0 0 (-1)) as (_ & Hmin & Hmax).
  split; [apply HB; lia|]. split; [apply Hmin; lia | apply Hmax; lia].
Defined.

(** X4: with [min <= max] no string violates both [MinLength] and
    [MaxLength], and a string passes both exactly when its length in bytes
    lies between the two bounds. *)
Theorem length_rules_together (f g v : string) (min max : Z) :
  min <= max ->
  ~ (is_Some (MinLength f v min) /\ is_Some (MaxLength g v max)) /\
  (MinLength f v min = None /\ MaxLength g v max = None <-> min <= len v <= max).
Proof.
  intros Hmm. unfold MinLength, MaxLength. rewrite Z.gtb_ltb.
  destruct (Z.ltb_spec (len v) min), (Z.ltb_spec max (len v)); split;
    try (intros [[? ?] [? ?]]; discriminate || lia);
    try (split; [intros [? ?]; discriminate || lia | intros; lia || tauto]).
Qed.

Lemma length_rules_together_name :
  ~ (is_Some (MinLength "Title" "RapidVal" 3) /\ is_Some (MaxLength "Title" "RapidVal" 100)) /\
  (MinLength "Title" "RapidVal" 3 = None /\ MaxLength "Title" "RapidVal" 100 = None
   <-> 3 <= len "RapidVal" <= 100).
Proof. apply (length_rules_together "Title" "Title" "RapidVal" 3 100). lia. Defined.

Lemma time_Before_asym (t u : time.Time) :
  time.Before t u = true -> time.Before u t = false.
Proof.
  unfold time.Before.
  destruct (time.mono t) as [mt|], (time.mono u) as [mu|];
    rewrite ?orb_true_iff, ?andb_true_iff, ?Z.ltb_lt, ?Z.eqb_eq; intros H;
    try (apply Z.ltb_ge; lia);
    apply orb_false_iff; rewrite andb_false_iff, !Z.ltb_ge, Z.eqb_neq; lia.
Qed.

(** X5: the two date rules mirror each other, [DateLessThan] of a value
    against a bound is a violation exactly when [DateGreaterThan] of the
    bound against the value is, and no value violates both rules against
    the same bound. *)
Theorem date_rules_mirror (f g : string) (v b : time.Time) :
  (is_Some (DateLessThan f v b) <-> is_Some (DateGreaterThan g b v)) /\
  ~ (is_Some (DateGreaterThan f v b) /\ is_Some (DateLessThan g v b)).
Proof.
  unfold DateLessThan, DateGreaterThan. rewrite time_After_Before. split.
  - destruct (time.Before b v); split; intros [? ?]; try discriminate; eauto.
  - destruct (time.Before v b) eqn:Hvb.
    + rewrite (time_Before_asym v b Hvb). intros [_ [? ?]]. discriminate.
    + intros [[? ?] _]. discriminate.
Qed.

Lemma RuneCount_le_len (s : string) : 0 <= RuneCount s <= len s.
Proof.
  unfold len. induction s as [|c s IH]; cbn [RuneCount String.length]; [lia|].
  destruct (is_continuation c); lia.
Qed.

(** X6: counting bytes errs on one side only.  A string that [MaxLength]
    accepts has at most [max] characters, and a string with at least [min]
    characters is accepted by [MinLength]. *)
Theorem length_rules_and_characters (f v : string) (min max : Z) :
  (MaxLength f v max = None -> RuneCount v <= max) /\
  (min <= RuneCount v -> MinLength f v min = None).
Proof.
  pose proof (RuneCount_le_len v) as Hr. split.
  - rule_cases MaxLength; [discriminate|]. intros _.
    rewrite Z.gtb_ltb in Heqb. apply Z.ltb_ge in Heqb. lia.
  - intros Hmin. rule_cases MinLength; [|reflexivity].
    apply Z.ltb_lt in Heqb. lia.
Qed.

(** ** The Validator, beyond one fresh call *)

Lemma violations_nil (params : P) :
  violations params = [] <-> Forall (fun o => is_violation o = false) params.
Proof.
  induction params as [|o params IH].
  - split; [constructor | reflexivity].
  - rewrite violations_cons, Forall_cons, <- IH. split.
    + intros H. apply app_eq_nil in H as [Ho Hrest]. split; [|exact Hrest].
      destruct o as [e|]; [|reflexivity]. unfold violations in Ho. cbn in *.
      destruct (negb (MessageKey e =? "")%string); [discriminate | reflexivity].
    + intros [Ho ->]. rewrite app_nil_r. unfold violations. cbn. rewrite Ho. reflexivity.
Qed.

(** X7: when [Validate] returns nil.  It returns nil exactly when the rule
    sequence is empty, whatever the Validator holds, or when the Validator
    holds nothing and no entry of the sequence is a violation; a collection
    it returns is the accumulator it leaves behind. *)
Theorem Validate_nil_cases {A : Type} `{Validateable A} (v : Validator) (val : A) :
  (snd (Validate v val) = None <->
   Validations val = [] \/
   (errors v = [] /\ Forall (fun o => is_violation o = false) (Validations val))) /\
  (forall errs, snd (Validate v val) = Some errs ->
     errs = errors (fst (Validate v val)) /\
     errs = errors v ++ violations (Validations val)).
Proof.
  destruct (Validations val) as [|o params] eqn:Hp.
  - rewrite Validate_empty by exact Hp. cbn. split; [tauto | discriminate].
  - assert (Hne : Validations val <> []) by (rewrite Hp; discriminate).
    destruct (Validate_unfold v val Hne) as [Hst Hres].
    rewrite Hst, Hres, Hp, <- violations_nil.
    destruct (errors v ++ violations (o :: params)) as [|e errs'] eqn:Hall; split.
    + apply app_eq_nil in Hall. split; [intros _; right; exact Hall | reflexivity].
    + discriminate.
    + split; [discriminate|]. intros [Hnil|[Hv Hno]]; [discriminate|].
      rewrite Hv, Hno in Hall. discriminate.
    + intros errs [= <-]. split; reflexivity.
Qed.

Lemma violations_elem (params : P) (e : ValidationError) :
  e ∈ violations params <-> Some e ∈ params /\ MessageKey e <> "".
Proof.
  unfold violations. rewrite list_elem_of_omap. split.
  - intros (o & Hin & Ho). destruct o as [e'|]; cbn in Ho; [|discriminate].
    destruct (negb (MessageKey e' =? "")%string) eqn:Hk; [|discriminate].
    injection Ho as ->. split; [exact Hin|].
    apply negb_true_iff, String.eqb_neq in Hk. exact Hk.
  - intros [Hin Hk]. exists (Some e). split; [exact Hin|]. cbn.
    apply String.eqb_neq in Hk. rewrite Hk. reflexivity.
Qed.

(** X8: what a Validator can hold.  Starting from [New], after any sequence
    of calls every error the Validator holds carries a non-empty message key
    and is an entry of the rule sequence of one of the entities it was
    called on. *)
Theorem Validator_holds_only_violations (es : list entity) (e : ValidationError) :
  e ∈ errors (Validate_all New es) ->
  MessageKey e <> "" /\ exists ent, ent ∈ es /\ Some e ∈ entity_Validations ent.
Proof.
  rewrite Validate_all_errors. cbn [New errors app].
  intros Hin. apply list_elem_of_In, in_concat in Hin as (l & Hl & Hin).
  apply in_map_iff in Hl as (ent & <- & Hent).
  apply list_elem_of_In, violations_elem in Hin as [Hin Hk].
  split; [exact Hk|]. exists ent. split; [apply list_elem_of_In, Hent | exact Hin].
Qed.

(** X8 on the first error of the tests' failing entity. *)
Lemma Validator_holds_only_violations_testStruct2 :
  exists e, Required "name" (VString "") = Some e /\
    MessageKey e <> "" /\
    exists ent, ent ∈ [Entity mkTestStruct2] /\ Some e ∈ entity_Validations ent.
Proof.
  eexists. split; [reflexivity|].
  apply (Validator_holds_only_violations [Entity mkTestStruct2]).
  apply list_elem_of_here.
Defined.

Lemma run_rule_key (c : rule_call) (ve : ValidationError) :
  run_rule c = Some ve -> MessageKey ve = rule_key c.
Proof.
  destruct c; cbn [run_rule rule_key];
    unfold Required, Email, MinLength, MaxLength, Between, DateGreaterThan,
      DateLessThan;
    match goal with |- context [if ?b then _ else _] => destruct b end;
    intros Hve; try discriminate; injection Hve as <-; reflexivity.
Qed.

Lemma rule_key_nonempty (c : rule_call) : (rule_key c =? "")%string = false.
Proof. destruct c; reflexivity. Qed.

Lemma violations_of_rule_calls (cs : list rule_call) :
  violations (map run_rule cs) = omap run_rule cs.
Proof.
  induction cs as [|c cs IH]; [reflexivity|].
  cbn [map]. rewrite violations_cons, IH. unfold violations.
  change (omap run_rule (c :: cs))
    with (match run_rule c with
          | Some ve => ve :: omap run_rule cs
          | None => omap run_rule cs
          end).
  destruct (run_rule c) as [ve|] eqn:Hc; [|reflexivity].
  cbn. rewrite (run_rule_key c ve Hc), rule_key_nonempty. reflexivity.
Qed.


Lemma String_concat_cons (sep x y : string) (l : list string) :
  String.concat sep (x :: y :: l) = x +:+ sep +:+ String.concat sep (y :: l).
Proof. reflexivity. Qed.

(** X10: the text of a collection.  [Error] of a collection put together
    from two non-empty collections is the text of the first, a semicolon and
    a space, and the text of the second; the empty collection has the empty
    text and a single error the text of its message key. *)
Theorem ValidationErrors_Error_app (ve1 ve2 : ValidationErrors) :
  ve1 <> [] -> ve2 <> [] ->
  ValidationErrors_Error (ve1 ++ ve2) =
  ValidationErrors_Error ve1 +:+ "; " +:+ ValidationErrors_Error ve2.
Proof.
  unfold ValidationErrors_Error. intros H1 H2.
  destruct ve2 as [|e2 ve2]; [contradiction|]. clear H2.
  induction ve1 as [|e ve1 IH]; [contradiction|]. clear H1.
  destruct ve1 as [|e' ve1].
  - reflexivity.
  - change (map ValidationError_Error ((e :: e' :: ve1) ++ e2 :: ve2))
      with (ValidationError_Error e :: ValidationError_Error e'
            :: map ValidationError_Error (ve1 ++ e2 :: ve2)).
    rewrite String_concat_cons.
    change (ValidationError_Error e' :: map ValidationError_Error (ve1 ++ e2 :: ve2))
      with (map ValidationError_Error ((e' :: ve1) ++ e2 :: ve2)).
    rewrite IH by discriminate.
    cbn [map]. rewrite String_concat_cons, !append_assoc. reflexivity.
Qed.

Lemma ValidationErrors_Error_app_test :
  ValidationErrors_Error
    ([ {| Field := "name"; MessageKey := MsgRequired;
          MessageParams := ∅; CurrentValue := VNil |} ] ++
     [ {| Field := "email"; MessageKey := MsgInvalidEmail;
          MessageParams := ∅; CurrentValue := VNil |} ])
  = "validation.required" +:+ "; " +:+ "validation.email".
Proof. apply ValidationErrors_Error_app; discriminate. Defined.

(** ** The Translator, beyond one lookup *)

Section Registry.

Context `{engine : TemplateEngine}.

(** The template set of a constructed Translator, key by key. *)
Lemma constructed_tmpl_lookup (msgs : gmap string string)
    (entries : list (string * string)) (t : Translator) (key : string) :
  entries ≡ₚ map_to_list msgs ->
  NewTranslatorWithMessages_in entries msgs = Some t ->
  tmpl t !! key = match msgs !! key with
                  | Some msg => Parse key msg
                  | None => None
                  end /\
  (forall msg, msgs !! key = Some msg -> is_Some (Parse key msg)).
Proof.
  intros Hperm Hnew.
  destruct (constructed_Translator msgs entries t Hperm Hnew) as [_ Hin].
  split; [|intros msg Hk; apply (Hin _ _ Hk)].
  destruct (msgs !! key) as [msg|] eqn:Hk; [apply (Hin _ _ Hk)|].
  unfold NewTranslatorWithMessages_in in Hnew.
  destruct (parseAll entries ∅) as [set|] eqn:Hall; [|discriminate].
  injection Hnew as <-. cbn.
  destruct (range_entries msgs entries Hperm) as [Hnd Hmem].
  destruct (parseAll_Some entries ∅ set Hall Hnd) as [_ Hout].
  rewrite Hout; [apply lookup_empty|].
  intros Hkey. apply list_elem_of_fmap in Hkey as ([k m] & -> & Hkm).
  apply Hmem in Hkm. cbn in Hk. congruence.
Qed.

(** X11: the map is shared, the templates are parsed once.  Right after
    construction the registry and the template set have the same keys.
    When the caller changes the map afterwards, a key that the map did not
    have at construction is answered with the key itself even if the map
    has it now (the branch for a template that [Lookup] does not find), a
    key that the map no longer has is answered with the key itself, and a
    key that the map still has is translated with the template parsed at
    construction, whatever text the map holds for it now. *)
Theorem Translate_after_map_change (msgs msgs' : gmap string string)
    (entries : list (string * string)) (t : Translator) (err : ValidationError) :
  entries ≡ₚ map_to_list msgs ->
  NewTranslatorWithMessages_in entries msgs = Some t ->
  (is_Some (messages t !! MessageKey err) <-> is_Some (tmpl t !! MessageKey err)) /\
  (msgs !! MessageKey err = None ->
   Translate (after_map_change msgs' t) err = MessageKey err) /\
  (msgs' !! MessageKey err = None ->
   Translate (after_map_change msgs' t) err = MessageKey err) /\
  (is_Some (msgs !! MessageKey err) -> is_Some (msgs' !! MessageKey err) ->
   Translate (after_map_change msgs' t) err = Translate t err).
Proof.
  intros Hperm Hnew.
  destruct (constructed_Translator msgs entries t Hperm Hnew) as [Hm _].
  destruct (constructed_tmpl_lookup msgs entries t (MessageKey err) Hperm Hnew)
    as [Hlook Hp].
  split; [|split; [|split]].
  - rewrite Hm, Hlook. destruct (msgs !! MessageKey err) as [msg|].
    + split; intros _; [apply (Hp msg); reflexivity | eauto].
    + split; intros [? ?]; discriminate.
  - intros Hk. unfold Translate, after_map_change. cbn [messages tmpl].
    rewrite Hlook, Hk. destruct (msgs' !! MessageKey err); reflexivity.
  - intros Hk. unfold Translate, after_map_change. cbn [messages tmpl].
    rewrite Hk. reflexivity.
  - intros [msg Hk] [msg' Hk']. unfold Translate, after_map_change.
    cbn [messages tmpl]. rewrite Hm, Hk, Hk'. reflexivity.
Qed.

(** X12: the order in which the map is traversed does not show.  Any two
    traversals construct the same Translator, or both panic. *)
Theorem construction_ignores_order (msgs : gmap string string)
    (entries1 entries2 : list (string * string)) :
  entries1 ≡ₚ map_to_list msgs ->
  entries2 ≡ₚ map_to_list msgs ->
  NewTranslatorWithMessages_in entries1 msgs = NewTranslatorWithMessages_in entries2 msgs.
Proof.
  intros H1 H2.
  destruct (NewTranslatorWithMessages_in entries1 msgs) as [t1|] eqn:Hn1,
           (NewTranslatorWithMessages_in entries2 msgs) as [t2|] eqn:Hn2.
  - destruct (constructed_Translator msgs entries1 t1 H1 Hn1) as [Hm1 _].
    destruct (constructed_Translator msgs entries2 t2 H2 Hn2) as [Hm2 _].
    destruct t1 as [m1 s1], t2 as [m2 s2]. cbn in Hm1, Hm2. subst m1 m2.
    f_equal. f_equal. apply map_eq. intros key.
    destruct (constructed_tmpl_lookup msgs entries1 _ key H1 Hn1) as [Hk1 _].
    destruct (constructed_tmpl_lookup msgs entries2 _ key H2 Hn2) as [Hk2 _].
    cbn in Hk1, Hk2. congruence.
  - exfalso. unfold NewTranslatorWithMessages_in in Hn1, Hn2.
    destruct (parseAll entries2 ∅) eqn:Hall; [discriminate|].
    apply parseAll_None in Hall as (key & msg & Hin & Hbad).
    destruct (range_entries msgs entries2 H2) as [_ Hmem2].
    apply Hmem2 in Hin.
    destruct (parseAll entries1 ∅) as [set|] eqn:Hall1; [|discriminate].
    destruct (range_entries msgs entries1 H1) as [Hnd1 Hmem1].
    destruct (parseAll_Some entries1 ∅ set Hall1 Hnd1) as [Hset _].
    destruct (Hset key msg (proj2 (Hmem1 key msg) Hin)) as [_ [tp Htp]]. congruence.
  - exfalso. unfold NewTranslatorWithMessages_in in Hn1, Hn2.
    destruct (parseAll entries1 ∅) eqn:Hall; [discriminate|].
    apply parseAll_None in Hall as (key & msg & Hin & Hbad).
    destruct (range_entries msgs entries1 H1) as [_ Hmem1].
    apply Hmem1 in Hin.
    destruct (parseAll entries2 ∅) as [set|] eqn:Hall2; [|discriminate].
    destruct (range_entries msgs entries2 H2) as [Hnd2 Hmem2].
    destruct (parseAll_Some entries2 ∅ set Hall2 Hnd2) as [Hset _].
    destruct (Hset key msg (proj2 (Hmem2 key msg) Hin)) as [_ [tp Htp]]. congruence.
  - reflexivity.
Qed.

End Registry.

Lemma defaultMessages_unknown_key :
  defaultMessages !! MessageKey unknown_key_error = None.
Proof. vm_compute. reflexivity. Qed.

(** X11 on the default Translator, after a message for "unknown.key" was
    put into the default map. *)
Lemma Translate_after_map_change_default :
  exists t, @NewTranslator (go_template no_layout) = Some t /\
    Translate (after_map_change (<["unknown.key" := "{{.Field}} is unknown"]> defaultMessages) t)
      unknown_key_error = "unknown.key".
Proof.
  destruct NewTranslator_returns as [t Hnew]. exists t. split; [exact Hnew|].
  destruct (Translate_after_map_change (engine := go_template no_layout)
              defaultMessages
              (<["unknown.key" := "{{.Field}} is unknown"]> defaultMessages)
              (map_to_list defaultMessages) t unknown_key_error)
    as (_ & Hadded & _); [reflexivity | exact Hnew |].
  apply Hadded. exact defaultMessages_unknown_key.
Defined.

(** X12 on the two messages of the package's test of custom messages, in
    both orders. *)
Lemma construction_ignores_order_custom :
  @NewTranslatorWithMessages_in (go_template no_layout)
    custom_messages (list_to_map custom_messages) =
  @NewTranslatorWithMessages_in (go_template no_layout)
    (reverse custom_messages) (list_to_map custom_messages).
Proof.
  assert (Hnd : NoDup custom_messages.*1).
  { apply NoDup_cons. split; [|apply NoDup_singleton].
    intros Hin. apply list_elem_of_singleton in Hin. discriminate. }
  apply (construction_ignores_order (engine := go_template no_layout)).
  - symmetry. apply map_to_list_to_map, Hnd.
  - rewrite reverse_Permutation. symmetry. apply map_to_list_to_map, Hnd.
Defined.

(** ** Rendering what the rules report *)

Section RuleMessages.

Variable Time_String : time.Time -> string.

(** The default templates all parse, whatever prints the times. *)
Lemma NewTranslator_returns_any :
  exists t, @NewTranslator (go_template Time_String) = Some t.
Proof.
  assert (H : match @NewTranslator (go_template Time_String) with
              | Some _ => True
              | None => False
              end) by (vm_compute; exact I).
  destruct (@NewTranslator (go_template Time_String)) as [t|]; [|destruct H].
  exists t. reflexivity.
Qed.

(** [Translate] on a template that [fills] describes. *)
Lemma Translate_of_fills (msgs : gmap string string)
    (entries : list (string * string))
    (t : @Translator (go_template Time_String)) (err : ValidationError)
    (text out : string) :
  entries ≡ₚ map_to_list msgs ->
  @NewTranslatorWithMessages_in (go_template Time_String) entries msgs = Some t ->
  msgs !! MessageKey err = Some text ->
  fills Time_String (MessageParams err) text out ->
  Translate t err = out.
Proof.
  intros Hperm Hnew Hk Hf.
  destruct (Translate_known_key msgs entries t err text Hperm Hnew Hk)
    as (tp & Htp & ->).
  destruct (fills_Parse_Execute Time_String (MessageParams err) (MessageKey err) text out Hf)
    as (tp' & Htp' & Hexec).
  cbn in Htp. rewrite Htp' in Htp. injection Htp as ->.
  cbn. rewrite Hexec. reflexivity.
Qed.

Ltac fill_placeholder n v r t o :=
  apply (fills_placeholder Time_String _ n v r t o);
  [reflexivity | by simplify_map_eq | reflexivity | ].

Ltac fill_text s t o :=
  apply (fills_text Time_String _ s t o); [reflexivity | ].

Ltac fill_end s :=
  apply (fills_text Time_String _ s EmptyString EmptyString);
  [reflexivity | apply fills_end].

(** The default Translator on a violation that a rule reports. *)
Lemma Translate_default_text (t : @Translator (go_template Time_String))
    (c : rule_call) (ve : ValidationError) :
  @NewTranslator (go_template Time_String) = Some t ->
  run_rule c = Some ve ->
  Translate t ve = default_text Time_String c.
Proof.
  intros Hnew Hrun.
  pose proof (Translate_of_fills defaultMessages (map_to_list defaultMessages) t)
    as Htr.
  destruct c; cbn [run_rule default_text] in *;
    unfold Required, Email, MinLength, MaxLength, Between, DateGreaterThan,
      DateLessThan in Hrun;
    match type of Hrun with context [if ?b then _ else _] => destruct b end;
    try discriminate Hrun; injection Hrun as <-;
    unfold MessageParam.Field, MessageParam.Value, MessageParam.Min, MessageParam.Max.
  - eapply Htr; [reflexivity | exact Hnew | vm_compute; reflexivity |].
    clear Htr Hnew. cbn.
    fill_placeholder "Field" (VString field) field " alanı zorunludur" " alanı zorunludur".
    fill_end " alanı zorunludur".
  - eapply Htr; [reflexivity | exact Hnew | vm_compute; reflexivity |].
    clear Htr Hnew. cbn.
    fill_placeholder "Field" (VString field) field
      " geçerli bir email adresi olmalıdır" " geçerli bir email adresi olmalıdır".
    fill_end " geçerli bir email adresi olmalıdır".
  - eapply Htr; [reflexivity | exact Hnew | vm_compute; reflexivity |].
    clear Htr Hnew. cbn.
    fill_placeholder "Field" (VString field) field
      " en az {{.Min}} karakter olmalıdır"
      (" en az " +:+ text_template.itoa min +:+ " karakter olmalıdır").
    fill_text " en az " "{{.Min}} karakter olmalıdır"
      (text_template.itoa min +:+ " karakter olmalıdır").
    fill_placeholder "Min" (VInt min) (text_template.itoa min)
      " karakter olmalıdır" " karakter olmalıdır".
    fill_end " karakter olmalıdır".
  - eapply Htr; [reflexivity | exact Hnew | vm_compute; reflexivity |].
    clear Htr Hnew. cbn.
    fill_placeholder "Field" (VString field) field
      " en fazla {{.Max}} karakter olmalıdır"
      (" en fazla " +:+ text_template.itoa max +:+ " karakter olmalıdır").
    fill_text " en fazla " "{{.Max}} karakter olmalıdır"
      (text_template.itoa max +:+ " karakter olmalıdır").
    fill_placeholder "Max" (VInt max) (text_template.itoa max)
      " karakter olmalıdır" " karakter olmalıdır".
    fill_end " karakter olmalıdır".
  - eapply Htr; [reflexivity | exact Hnew | vm_compute; reflexivity |].
    clear Htr Hnew. cbn.
    fill_placeholder "Field" (VString field) field
      " {{.Min}} ile {{.Max}} arasında olmalıdır"
      (" " +:+ text_template.itoa min +:+ " ile " +:+ text_template.itoa max
       +:+ " arasında olmalıdır").
    fill_text " " "{{.Min}} ile {{.Max}} arasında olmalıdır"
      (text_template.itoa min +:+ " ile " +:+ text_template.itoa max
       +:+ " arasında olmalıdır").
    fill_placeholder "Min" (VInt min) (text_template.itoa min)
      " ile {{.Max}} arasında olmalıdır"
      (" ile " +:+ text_template.itoa max +:+ " arasında olmalıdır").
    fill_text " ile " "{{.Max}} arasında olmalıdır"
      (text_template.itoa max +:+ " arasında olmalıdır").
    fill_placeholder "Max" (VInt max) (text_template.itoa max)
      " arasında olmalıdır" " arasında olmalıdır".
    fill_end " arasında olmalıdır".
  - eapply Htr; [reflexivity | exact Hnew | vm_compute; reflexivity |].
    clear Htr Hnew. cbn.
    fill_placeholder "Field" (VString field) field
      " {{.Min}} tarihinden sonra olmalıdır"
      (" " +:+ Time_String min +:+ " tarihinden sonra olmalıdır").
    fill_text " " "{{.Min}} tarihinden sonra olmalıdır"
      (Time_String min +:+ " tarihinden sonra olmalıdır").
    fill_placeholder "Min" (VTime min) (Time_String min)
      " tarihinden sonra olmalıdır" " tarihinden sonra olmalıdır".
    fill_end " tarihinden sonra olmalıdır".
  - eapply Htr; [reflexivity | exact Hnew | vm_compute; reflexivity |].
    clear Htr Hnew. cbn.
    fill_placeholder "Field" (VString field) field
      " {{.Max}} tarihinden önce olmalıdır"
      (" " +:+ Time_String max +:+ " tarihinden önce olmalıdır").
    fill_text " " "{{.Max}} tarihinden önce olmalıdır"
      (Time_String max +:+ " tarihinden önce olmalıdır").
    fill_placeholder "Max" (VTime max) (Time_String max)
      " tarihinden önce olmalıdır" " tarihinden önce olmalıdır".
    fill_end " tarihinden önce olmalıdır".
Qed.

(** X13: the default message of every violation.  [NewTranslator] returns
    a Translator, and for every violation that one of the seven rule
    functions reports it renders the rule's default template with the field
    argument and the bounds of the call: every parameter a default template
    names is one the rule supplies. *)
Theorem default_message_of_a_violation (c : rule_call) (ve : ValidationError) :
  run_rule c = Some ve ->
  exists t, @NewTranslator (go_template Time_String) = Some t /\
    Translate t ve = default_text Time_String c.
Proof.
  intros Hrun. destruct NewTranslator_returns_any as [t Hnew].
  exists t. split; [exact Hnew | exact (Translate_default_text t c ve Hnew Hrun)].
Qed.

Lemma default_texts_cons (c : rule_call) (cs : list rule_call) :
  default_texts Time_String (c :: cs) =
  match run_rule c with
  | Some _ => default_text Time_String c :: default_texts Time_String cs
  | None => default_texts Time_String cs
  end.
Proof.
  unfold default_texts.
  change (omap ?f (c :: cs))
    with (match f c with
          | Some y => y :: omap f cs
          | None => omap f cs
          end).
  cbv beta. destruct (run_rule c); reflexivity.
Qed.


End RuleMessages.

(** X13 on the failing call of the Translator's test. *)
Lemma default_message_of_a_violation_min_length :
  exists ve t, MinLength "Name" "J" 3 = Some ve /\
    @NewTranslator (go_template no_layout) = Some t /\
    Translate t ve = "Name en az 3 karakter olmalıdır".
Proof.
  eexists.
  destruct (default_message_of_a_violation no_layout (CallMinLength "Name" "J" 3) _ eq_refl)
    as (t & Hnew & Htr).
  exists t. split; [reflexivity|]. split; [exact Hnew | exact Htr].
Defined.

(** ** Parameters that are missing, and parameters that cannot be printed *)

Section Parameters.

Variable Time_String : time.Time -> string.

Lemma evalField_missing_is_nil (dot : gmap string value) (name f : string) :
  dot !! name = None ->
  text_template.evalField (<[name := VNil]> dot) f = text_template.evalField dot f.
Proof.
  intros Hmiss. unfold text_template.evalField.
  destruct (decide (name = f)) as [->|Hne].
  - rewrite lookup_insert_eq, Hmiss. reflexivity.
  - rewrite lookup_insert_ne by exact Hne. reflexivity.
Qed.

Lemma walk_missing_is_nil (name : string) (dot : gmap string value) (param : string)
    (ns : list text_template.Node) (buf : string) :
  dot !! param = None ->
  text_template.walk Time_String name (<[param := VNil]> dot) buf ns =
  text_template.walk Time_String name dot buf ns.
Proof.
  intros Hmiss. revert buf.
  induction ns as [|[t|f] ns IH]; intros buf; cbn [text_template.walk].
  - reflexivity.
  - apply IH.
  - rewrite (evalField_missing_is_nil dot param f Hmiss).
    destruct (text_template.printableValue Time_String (text_template.evalField dot f));
      [apply IH | reflexivity].
Qed.

(** X14: a parameter that is missing is not a rendering failure.  For every
    Translator and every error, [Translate] returns what it returns for the
    same error with the missing parameter supplied as nil: the placeholder
    is rendered as the text of the nil value. *)
Theorem missing_parameter_renders_as_nil
    (t : @Translator (go_template Time_String)) (err : ValidationError)
    (name : string) :
  MessageParams err !! name = None ->
  Translate t err = Translate t (with_param name VNil err).
Proof.
  intros Hmiss.
  unfold Translate, with_param. cbn [MessageKey MessageParams].
  destruct (messages t !! MessageKey err); [|reflexivity].
  destruct (tmpl t !! MessageKey err) as [tp|]; [|reflexivity].
  cbn [Execute go_template]. unfold text_template.Execute.
  rewrite (walk_missing_is_nil _ _ name _ _ Hmiss). reflexivity.
Qed.

(** Rendering fails only at a placeholder whose parameter is a channel. *)
Lemma walk_fails_on_channel (name : string) (dot : gmap string value)
    (ns : list text_template.Node) (buf : string) (e : error) :
  text_template.walk Time_String name dot buf ns = inr e ->
  exists ident id, dot !! ident = Some (VChan id).
Proof.
  revert buf. induction ns as [|[t|f] ns IH]; intros buf; cbn [text_template.walk].
  - discriminate.
  - apply IH.
  - destruct (text_template.printableValue Time_String (text_template.evalField dot f))
      eqn:Hp; [apply IH|].
    intros _. unfold text_template.evalField in Hp.
    destruct (dot !! f) as [v|] eqn:Hf; cbn in Hp; [|discriminate].
    destruct v; try discriminate. eauto.
Qed.

(** No rule stores a channel among its parameters. *)
Lemma rule_params_printable (c : rule_call) (ve : ValidationError)
    (name : string) (id : nat) :
  run_rule c = Some ve -> MessageParams ve !! name <> Some (VChan id).
Proof.
  intros Hrun Hname.
  destruct c; cbn [run_rule] in Hrun;
    unfold Required, Email, MinLength, MaxLength, Between, DateGreaterThan,
      DateLessThan in Hrun;
    match type of Hrun with context [if ?b then _ else _] => destruct b eqn:Hb end;
    try discriminate Hrun; injection Hrun as <-; cbn [MessageParams] in Hname;
    repeat (apply lookup_insert_Some in Hname as [[_ Hname]|[_ Hname]];
            [try discriminate Hname|]);
    try (rewrite lookup_empty in Hname; discriminate Hname).
  subst v. discriminate Hb.
Qed.

(** X15: what the rules report can always be rendered.  Whatever templates
    of text and placeholders a Translator was constructed with, for a
    violation reported by one of the seven rule functions whose key is in
    the registry [Translate] returns the rendered template, never the text
    of a rendering error. *)
Theorem rule_violations_always_render (msgs : gmap string string)
    (entries : list (string * string))
    (t : @Translator (go_template Time_String))
    (c : rule_call) (ve : ValidationError) (msg : string) :
  entries ≡ₚ map_to_list msgs ->
  @NewTranslatorWithMessages_in (go_template Time_String) entries msgs = Some t ->
  run_rule c = Some ve ->
  msgs !! MessageKey ve = Some msg ->
  exists tp out, text_template.Parse (MessageKey ve) msg = Some tp /\
    text_template.Execute Time_String tp (MessageParams ve) = inl out /\
    Translate t ve = out.
Proof.
  intros Hperm Hnew Hrun Hk.
  destruct (Translate_known_key msgs entries t ve msg Hperm Hnew Hk)
    as (tp & Htp & Htr).
  cbn in Htp, Htr. exists tp.
  destruct (text_template.Execute Time_String tp (MessageParams ve)) as [out|e] eqn:Hexec.
  - exists out. split; [exact Htp|]. split; [reflexivity | exact Htr].
  - exfalso. unfold text_template.Execute in Hexec.
    apply walk_fails_on_channel in Hexec as (ident & id & Hchan).
    exact (rule_params_printable c ve ident id Hrun Hchan).
Qed.

(** X16: a template without an opening brace is a fixed message.  For a key
    of the registry whose template has no opening brace, [Translate]
    returns the template text itself, whatever the parameters of the error
    are. *)
Theorem literal_template_is_returned_verbatim (msgs : gmap string string)
    (entries : list (string * string))
    (t : @Translator (go_template Time_String)) (err : ValidationError)
    (msg : string) :
  entries ≡ₚ map_to_list msgs ->
  @NewTranslatorWithMessages_in (go_template Time_String) entries msgs = Some t ->
  msgs !! MessageKey err = Some msg ->
  Contains msg "{" = false ->
  Translate t err = msg.
Proof.
  intros Hperm Hnew Hk Hlit.
  destruct (Translate_known_key msgs entries t err msg Hperm Hnew Hk)
    as (tp & Htp & ->).
  assert (Hf : fills Time_String (MessageParams err) msg msg).
  { pose proof (fills_text Time_String (MessageParams err) msg EmptyString EmptyString
                  Hlit (fills_end _ _)) as Hf.
    rewrite append_nil_r in Hf. exact Hf. }
  destruct (fills_Parse_Execute Time_String (MessageParams err) (MessageKey err) msg msg Hf)
    as (tp' & Htp' & Hexec).
  cbn in Htp. rewrite Htp' in Htp. injection Htp as ->.
  cbn. rewrite Hexec. reflexivity.
Qed.

End Parameters.

(** X14 on a Required error without parameters, with the default
    Translator: the field placeholder is rendered as the text of nil. *)
Lemma missing_parameter_renders_as_nil_required :
  exists t, @NewTranslator (go_template no_layout) = Some t /\
    Translate t bare_required_error = "<no value> alanı zorunludur".
Proof.
  destruct NewTranslator_returns as [t Hnew]. exists t. split; [exact Hnew|].
  rewrite (missing_parameter_renders_as_nil no_layout t bare_required_error "Field")
    by reflexivity.
  apply (Translate_of_fills no_layout defaultMessages (map_to_list defaultMessages) t
           _ "{{.Field}} alanı zorunludur");
    [reflexivity | exact Hnew | exact defaultMessages_required |].
  clear Hnew.
  apply (fills_placeholder no_layout _ "Field" VNil "<no value>"
           " alanı zorunludur" " alanı zorunludur");
    [reflexivity | reflexivity | reflexivity |].
  apply (fills_text no_layout _ " alanı zorunludur" EmptyString EmptyString);
    [reflexivity | apply fills_end].
Defined.

Lemma defaultMessages_between :
  defaultMessages !! MsgBetween = Some "{{.Field}} {{.Min}} ile {{.Max}} arasında olmalıdır".
Proof. vm_compute. reflexivity. Qed.

(** X15 on an age of 17 between 18 and 100, with the default Translator. *)
Lemma rule_violations_always_render_between :
  exists t ve tp out,
    @NewTranslator (go_template no_layout) = Some t /\
    Between "age" 17 18 100 = Some ve /\
    text_template.Parse (MessageKey ve)
      "{{.Field}} {{.Min}} ile {{.Max}} arasında olmalıdır" = Some tp /\
    text_template.Execute no_layout tp (MessageParams ve) = inl out /\
    Translate t ve = out.
Proof.
  destruct NewTranslator_returns as [t Hnew].
  destruct (Between "age" 17 18 100) as [ve|] eqn:Hb; [|discriminate Hb].
  assert (Hkey : MessageKey ve = MsgBetween)
    by apply (run_rule_key (CallBetween "age" 17 18 100) ve Hb).
  destruct (rule_violations_always_render no_layout
              defaultMessages (map_to_list defaultMessages) t
              (CallBetween "age" 17 18 100) ve
              "{{.Field}} {{.Min}} ile {{.Max}} arasında olmalıdır")
    as (tp & out & Htp & Hexec & Htr);
    [reflexivity | exact Hnew | exact Hb
    | rewrite Hkey; exact defaultMessages_between |].
  exists t, ve, tp, out. split; [exact Hnew|]. split; [reflexivity|].
  split; [exact Htp|]. split; [exact Hexec | exact Htr].
Defined.

Lemma fixed_messages_construct :
  exists t, @NewTranslatorWithMessages (go_template no_layout) fixed_messages = Some t.
Proof.
  assert (H : match @NewTranslatorWithMessages (go_template no_layout) fixed_messages with
              | Some _ => True
              | None => False
              end) by (vm_compute; exact I).
  destruct (@NewTranslatorWithMessages (go_template no_layout) fixed_messages) as [t|];
    [|destruct H].
  exists t. reflexivity.
Qed.

(** X16 on a registry with one fixed message. *)
Lemma literal_template_is_returned_verbatim_fixed :
  exists t, @NewTranslatorWithMessages (go_template no_layout) fixed_messages = Some t /\
    Translate t bare_required_error = "This field is required".
Proof.
  destruct fixed_messages_construct as [t Hnew]. exists t. split; [exact Hnew|].
  apply (literal_template_is_returned_verbatim no_layout fixed_messages
           (map_to_list fixed_messages) t bare_required_error);
    [reflexivity | exact Hnew | apply lookup_singleton_eq | reflexivity].
Defined.

